(** * Brute-force lockout engine: a shallow embedding of
    [app/brute_force_protection.py].

    The Python class [BruteForceProtection] keeps two dictionaries
    (by IP address and by account e-mail) of [LockoutStatus] objects and
    reads the wall clock with [time.time()].  Here

    - clock readings and stored timestamps (Python floats) are exact
      rationals [Q]; every [time.time()] call of the source is an explicit
      argument of the embedded function, in call order;
    - Python integers are [Z]; [lockout_count], which starts at 0 and is
      only ever incremented, is [N];
    - the two [defaultdict]s are [gmap string LockoutStatus];
    - a method that mutates [self] returns the new state next to its
      result. *)

From Stdlib Require Import ZArith QArith Qround Lia Lqa.
From stdpp Require Import gmap strings list fin_maps.
From stdpp Require Import sorting.

Local Open Scope Z_scope.

(** ** Python primitives used by the module *)

(** [a < b] on floats. *)
Definition Qltb (a b : Q) : bool := negb (Qle_bool b a).

(** Truth value of an [Optional[float]]: [None] and [0.0] are falsy. *)
Definition truthy (o : option Q) : bool :=
  match o with
  | None => false
  | Some x => negb (Qeq_bool x 0)
  end.

(** [int(x)] on a float: truncation toward zero. *)
Definition py_int (x : Q) : Z := Z.quot (Qnum x) (Zpos (Qden x)).

(** [max(x, xs...)] over a non-empty iterable: the first maximal element. *)
Definition py_max (x : Q) (xs : list Q) : Q :=
  fold_left (fun m y => if Qltb m y then y else m) xs x.

(** ** Data model *)

Record LoginAttempt := mkAttempt {
  timestamp : Q;
  success : bool;
  ip_address : string;
  email : string
}.

Record LockoutStatus := mkStatus {
  failed_attempts : Z;
  first_attempt_time : option Q;
  last_attempt_time : option Q;
  locked_until : option Q;
  lockout_count : N;
  attempts : list LoginAttempt
}.

(** [LockoutStatus()], the value a [defaultdict] creates for a new key. *)
Definition LockoutStatus_default : LockoutStatus :=
  mkStatus 0 None None None 0%N [].

(** [max(a.timestamp for a in attempts)], defined when the history is not
    empty: the timestamp of the most recent entry. *)
Definition latest_timestamp (l : list LoginAttempt) : option Q :=
  match l with
  | [] => None
  | a :: rest => Some (py_max (timestamp a) (map timestamp rest))
  end.

(** Constructor arguments of [BruteForceProtection]; never written after
    [__init__]. *)
Record Config := mkConfig {
  max_attempts : Z;
  lockout_duration : Z;
  exponential_backoff : bool;
  max_lockout_duration : Z;
  window_duration : Z;
  cleanup_interval : Z
}.

(** The constructor's default arguments. *)
Definition default_config : Config := mkConfig 5 300 true 3600 900 3600.

(** The mutable part of a [BruteForceProtection] instance. *)
Record BruteForceProtection := mkStore {
  ip_attempts : gmap string LockoutStatus;
  account_attempts : gmap string LockoutStatus;
  last_cleanup : Q
}.

(** [__init__]: both maps empty, [last_cleanup] set to the clock. *)
Definition init (now : Q) : BruteForceProtection := mkStore ∅ ∅ now.

(** The dictionary returned by [record_attempt].  The keys ["ip_locked"]
    and ["account_locked"] exist only on the failure path. *)
Record LockoutResult := mkResult {
  locked : bool;
  reason : option string;
  result_lockout_duration : Z;
  ip_locked : option bool;
  account_locked : option bool
}.

(** ** Lockout calculator *)

Definition _calculate_lockout_duration (cfg : Config) (count : N) : Z :=
  if negb (exponential_backoff cfg) || (count =? 0)%N
  then lockout_duration cfg
  else Z.min (lockout_duration cfg * 2 ^ Z.of_N count) (max_lockout_duration cfg).

(** ** Garbage collector *)

(** The two nested tests of the sweep's loop body, for one status. *)
Definition sweepable (cfg : Config) (current_time : Q) (status : LockoutStatus) : bool :=
  let cutoff_time := (current_time - inject_Z (window_duration cfg))%Q in
  truthy (locked_until status) &&
  match locked_until status with
  | Some lu => Qltb lu current_time
  | None => false
  end &&
  match latest_timestamp (attempts status) with
  | None => true
  | Some latest => Qltb latest cutoff_time
  end.

(** Collecting the keys to remove and deleting them afterwards keeps
    exactly the entries that fail the test. *)
Definition sweep (cfg : Config) (current_time : Q)
    (m : gmap string LockoutStatus) : gmap string LockoutStatus :=
  filter (fun kv => sweepable cfg current_time kv.2 = false) m.

Definition _cleanup_old_data (cfg : Config) (s : BruteForceProtection)
    (current_time : Q) : BruteForceProtection :=
  if Qltb (current_time - last_cleanup s) (inject_Z (cleanup_interval cfg))
  then s
  else mkStore (sweep cfg current_time (ip_attempts s))
               (sweep cfg current_time (account_attempts s))
               current_time.

(** ** Window pruner *)

Definition in_window (cutoff_time : Q) (attempt : LoginAttempt) : bool :=
  Qltb cutoff_time (timestamp attempt).

Definition is_failure (attempt : LoginAttempt) : bool := negb (success attempt).

Definition count_failures (l : list LoginAttempt) : Z :=
  Z.of_nat (length (List.filter is_failure l)).

Definition _prune_old_attempts (cfg : Config) (status : LockoutStatus)
    (current_time : Q) : LockoutStatus :=
  let cutoff_time := (current_time - inject_Z (window_duration cfg))%Q in
  let kept := List.filter (in_window cutoff_time) (attempts status) in
  mkStatus (count_failures kept)
           (first_attempt_time status)
           (last_attempt_time status)
           (locked_until status)
           (lockout_count status)
           kept.

(** ** Lock check *)

Definition set_locked_until (status : LockoutStatus) (lu : option Q) : LockoutStatus :=
  mkStatus (failed_attempts status) (first_attempt_time status)
           (last_attempt_time status) lu (lockout_count status) (attempts status).

(** Body shared by [is_ip_locked] and [is_account_locked] after the sweep:
    the map after the call and the returned pair. *)
Definition check_lock (m : gmap string LockoutStatus) (key : string)
    (current_time : Q) : gmap string LockoutStatus * (bool * option Z) :=
  match m !! key with
  | None => (m, (false, None))
  | Some status =>
      if negb (truthy (locked_until status)) then (m, (false, None))
      else
        match locked_until status with
        | None => (m, (false, None))
        | Some lu =>
            if Qltb current_time lu
            then (m, (true, Some (py_int (lu - current_time))))
            else (<[key := set_locked_until status None]> m, (false, None))
        end
  end.

(** [t_sweep] is the clock read by [_cleanup_old_data], [current_time] the
    one read afterwards by the check itself. *)
Definition is_ip_locked (cfg : Config) (s : BruteForceProtection)
    (ip : string) (t_sweep current_time : Q)
    : BruteForceProtection * (bool * option Z) :=
  let s1 := _cleanup_old_data cfg s t_sweep in
  let '(m, r) := check_lock (ip_attempts s1) ip current_time in
  (mkStore m (account_attempts s1) (last_cleanup s1), r).

Definition is_account_locked (cfg : Config) (s : BruteForceProtection)
    (mail : string) (t_sweep current_time : Q)
    : BruteForceProtection * (bool * option Z) :=
  let s1 := _cleanup_old_data cfg s t_sweep in
  let '(m, r) := check_lock (account_attempts s1) mail current_time in
  (mkStore (ip_attempts s1) m (last_cleanup s1), r).

(** ** Attempt recorder *)

(** [d[key]] on a [defaultdict(LockoutStatus)]. *)
Definition getitem (m : gmap string LockoutStatus) (key : string) : LockoutStatus :=
  default LockoutStatus_default (m !! key).

(** Append the attempt and refresh the two attempt times. *)
Definition track (status : LockoutStatus) (attempt : LoginAttempt)
    (current_time : Q) : LockoutStatus :=
  mkStatus (failed_attempts status)
           (if negb (truthy (first_attempt_time status))
            then Some current_time else first_attempt_time status)
           (Some current_time)
           (locked_until status)
           (lockout_count status)
           (attempts status ++ [attempt]).

Definition set_failed_attempts (status : LockoutStatus) (n : Z) : LockoutStatus :=
  mkStatus n (first_attempt_time status) (last_attempt_time status)
           (locked_until status) (lockout_count status) (attempts status).

(** The threshold test of one key. *)
Definition threshold_reached (cfg : Config) (status : LockoutStatus) : bool :=
  max_attempts cfg <=? failed_attempts status.

(** The three assignments to the status inside a threshold branch. *)
Definition impose_lock (cfg : Config) (status : LockoutStatus)
    (current_time : Q) : LockoutStatus :=
  let d := _calculate_lockout_duration cfg (lockout_count status) in
  mkStatus (failed_attempts status) (first_attempt_time status)
           (last_attempt_time status)
           (Some (current_time + inject_Z d)%Q)
           (lockout_count status + 1)%N
           (attempts status).

(** [current_time] is the clock read on entry; [t_ip] and [t_acc] are the
    clocks read by the two [_prune_old_attempts] calls (failure path only). *)
Definition record_attempt (cfg : Config) (s : BruteForceProtection)
    (ip mail : string) (ok : bool) (current_time t_ip t_acc : Q)
    : BruteForceProtection * LockoutResult :=
  let attempt := mkAttempt current_time ok ip mail in
  let ip_status := track (getitem (ip_attempts s) ip) attempt current_time in
  let account_status := track (getitem (account_attempts s) mail) attempt current_time in
  if ok then
    (mkStore (<[ip := set_failed_attempts ip_status 0]> (ip_attempts s))
             (<[mail := set_failed_attempts account_status 0]> (account_attempts s))
             (last_cleanup s),
     mkResult false None 0 None None)
  else
    let ip_status := _prune_old_attempts cfg ip_status t_ip in
    let account_status := _prune_old_attempts cfg account_status t_acc in
    let ip_status := set_failed_attempts ip_status (failed_attempts ip_status + 1) in
    let account_status :=
      set_failed_attempts account_status (failed_attempts account_status + 1) in
    let ip_fired := threshold_reached cfg ip_status in
    let account_fired := threshold_reached cfg account_status in
    let ip_duration := _calculate_lockout_duration cfg (lockout_count ip_status) in
    let account_duration :=
      _calculate_lockout_duration cfg (lockout_count account_status) in
    let result := mkResult false None 0 (Some false) (Some false) in
    let result :=
      if ip_fired
      then mkResult true (Some "ip"%string) ip_duration (Some true) (account_locked result)
      else result in
    let result :=
      if account_fired
      then mkResult true
             (if decide (reason result = Some "ip"%string)
              then Some "both"%string else Some "account"%string)
             (Z.max (result_lockout_duration result) account_duration)
             (ip_locked result) (Some true)
      else result in
    (mkStore
       (<[ip := if ip_fired then impose_lock cfg ip_status current_time
                else ip_status]> (ip_attempts s))
       (<[mail := if account_fired then impose_lock cfg account_status current_time
                  else account_status]> (account_attempts s))
       (last_cleanup s),
     result).

(** ** Administrative reset *)

Definition reset_ip (s : BruteForceProtection) (ip : string) : BruteForceProtection :=
  mkStore (delete ip (ip_attempts s)) (account_attempts s) (last_cleanup s).

Definition reset_account (s : BruteForceProtection) (mail : string) : BruteForceProtection :=
  mkStore (ip_attempts s) (delete mail (account_attempts s)) (last_cleanup s).

(** ** Status report *)

(** One entry (["ip"] or ["account"]) of the dictionary built by
    [get_status]. *)
Record StatusInfo := mkInfo {
  info_failed_attempts : Z;
  info_locked : bool;
  info_seconds_remaining : option Z;
  info_lockout_count : N
}.

(** The dictionary returned by [get_status]: each key may be missing. *)
Record StatusReport := mkReport {
  report_ip : option StatusInfo;
  report_account : option StatusInfo
}.

(** Truth value of an optional string argument: [None] and [""] are
    falsy; a truthy argument is the key to look up. *)
Definition given (arg : option string) : option string :=
  match arg with
  | Some key => if String.eqb key "" then None else Some key
  | None => None
  end.

(** [get_status] looks the status object up with [.get], calls the lock
    check, and reads [failed_attempts] and [lockout_count] from the object
    afterwards.  The lock check assigns to no field of that object but
    [locked_until], and the sweep deletes dictionary entries without
    touching the objects, so the two fields read are those of the object
    as it was looked up.  The four clocks are those read by the two lock
    checks, when they are called. *)
Definition get_status (cfg : Config) (s : BruteForceProtection)
    (ip_address mail : option string) (t_sweep_ip t_ip t_sweep_acc t_acc : Q)
    : BruteForceProtection * StatusReport :=
  let ip_part :=
    match given ip_address with
    | Some ip =>
        match ip_attempts s !! ip with
        | Some ip_status =>
            let out := is_ip_locked cfg s ip t_sweep_ip t_ip in
            (out.1, Some (mkInfo (failed_attempts ip_status) out.2.1 out.2.2
                            (lockout_count ip_status)))
        | None => (s, None)
        end
    | None => (s, None)
    end in
  let s1 := ip_part.1 in
  let account_part :=
    match given mail with
    | Some key =>
        match account_attempts s1 !! key with
        | Some account_status =>
            let out := is_account_locked cfg s1 key t_sweep_acc t_acc in
            (out.1, Some (mkInfo (failed_attempts account_status) out.2.1 out.2.2
                            (lockout_count account_status)))
        | None => (s1, None)
        end
    | None => (s1, None)
    end in
  (account_part.1, mkReport ip_part.2 account_part.2).

(** ** Sequences of calls *)

(** One call of a public method, with its arguments and the clocks it
    reads. *)
Inductive Call :=
| CallRecordAttempt (ip mail : string) (ok : bool) (current_time t_ip t_acc : Q)
| CallIsIpLocked (ip : string) (t_sweep current_time : Q)
| CallIsAccountLocked (mail : string) (t_sweep current_time : Q)
| CallResetIp (ip : string)
| CallResetAccount (mail : string)
| CallGetStatus (ip mail : option string) (t_sweep_ip t_ip t_sweep_acc t_acc : Q).

(** The engine after one call. *)
Definition call (cfg : Config) (s : BruteForceProtection) (c : Call)
    : BruteForceProtection :=
  match c with
  | CallRecordAttempt ip mail ok current_time t_ip t_acc =>
      (record_attempt cfg s ip mail ok current_time t_ip t_acc).1
  | CallIsIpLocked ip t_sweep current_time =>
      (is_ip_locked cfg s ip t_sweep current_time).1
  | CallIsAccountLocked mail t_sweep current_time =>
      (is_account_locked cfg s mail t_sweep current_time).1
  | CallResetIp ip => reset_ip s ip
  | CallResetAccount mail => reset_account s mail
  | CallGetStatus ip mail t_sweep_ip t_ip t_sweep_acc t_acc =>
      (get_status cfg s ip mail t_sweep_ip t_ip t_sweep_acc t_acc).1
  end.

(** The engine after a sequence of calls, first call first. *)
Definition run (cfg : Config) (s : BruteForceProtection) (calls : list Call)
    : BruteForceProtection :=
  fold_left (call cfg) calls s.

(** ** Derived views of the failure path

    The status of one key as [record_attempt] leaves it on the failure
    path: the attempt appended, the history pruned, the counter recomputed
    and incremented ([counted]), then locked if the threshold is reached
    ([after_failure]). *)

Definition counted (cfg : Config) (old : LockoutStatus) (attempt : LoginAttempt)
    (current_time t_prune : Q) : LockoutStatus :=
  let status := _prune_old_attempts cfg (track old attempt current_time) t_prune in
  set_failed_attempts status (failed_attempts status + 1).

Definition after_failure (cfg : Config) (old : LockoutStatus) (attempt : LoginAttempt)
    (current_time t_prune : Q) : LockoutStatus :=
  let status := counted cfg old attempt current_time t_prune in
  if threshold_reached cfg status then impose_lock cfg status current_time else status.

(** ** Vocabulary of the statements *)

(** A status the sweep removes: its lock is set and already over, and its
    history is empty or ends before the window. *)
Definition expired_and_idle (cfg : Config) (now : Q) (status : LockoutStatus) : Prop :=
  (exists lu, locked_until status = Some lu /\ ~ (lu == 0)%Q /\ (lu < now)%Q) /\
  (attempts status = [] \/
   exists latest, latest_timestamp (attempts status) = Some latest /\
                  (latest < now - inject_Z (window_duration cfg))%Q).

(** One key of one map across a sweep that runs at [now]. *)
Definition swept_entry (cfg : Config) (now : Q)
    (before after : option LockoutStatus) : Prop :=
  match before with
  | None => after = None
  | Some status =>
      (expired_and_idle cfg now status -> after = None) /\
      (~ expired_and_idle cfg now status -> after = Some status)
  end.

(** One key of one map across a lock check at [now] that returns [r]. *)
Definition lock_check_outcome (now : Q) (before after : option LockoutStatus)
    (r : bool * option Z) : Prop :=
  match before with
  | None => r = (false, None) /\ after = None
  | Some status =>
      match locked_until status with
      | None => r = (false, None) /\ after = Some status
      | Some lu =>
          ((lu == 0)%Q -> r = (false, None) /\ after = Some status) /\
          (~ (lu == 0)%Q -> (now < lu)%Q ->
             exists secs, r = (true, Some secs) /\ 0 <= secs /\
                          (inject_Z secs <= lu - now)%Q /\
                          (lu - now < inject_Z (secs + 1))%Q /\
                          after = Some status) /\
          (~ (lu == 0)%Q -> (lu <= now)%Q ->
             r = (false, None) /\
             (after = Some (set_locked_until status None) \/ after = None))
      end
  end.

(** A status as the calls leave it under its key: every record of the
    history belongs to the key, the counter is between 0 and the length of
    the history plus one, a status that holds a lock time has been locked
    at least once, and both attempt times are set. *)
Definition status_ok (belongs : LoginAttempt -> Prop) (status : LockoutStatus) : Prop :=
  Forall belongs (attempts status) /\
  0 <= failed_attempts status <= Z.of_nat (length (attempts status)) + 1 /\
  (is_Some (locked_until status) -> lockout_count status <> 0%N) /\
  is_Some (first_attempt_time status) /\
  is_Some (last_attempt_time status).

Definition store_ok (s : BruteForceProtection) : Prop :=
  (forall (key : string) (status : LockoutStatus),
     ip_attempts s !! key = Some status ->
     status_ok (fun a => ip_address a = key) status) /\
  (forall (key : string) (status : LockoutStatus),
     account_attempts s !! key = Some status ->
     status_ok (fun a => email a = key) status).

(** One key of one map across a call that only reads: an entry that is
    there afterwards was there before, and differs from it at most by a
    cleared [locked_until]. *)
Definition kept_or_cleared (before after : option LockoutStatus) : Prop :=
  match after with
  | None => True
  | Some status' =>
      exists status, before = Some status /\
        (status' = status \/ status' = set_locked_until status None)
  end.

(** Failed logins from [ip] for [mail] at each of the given times, every
    clock of a call reading the same time. *)
Definition fail_times (cfg : Config) (s : BruteForceProtection) (ip mail : string)
    (times : list Q) : BruteForceProtection :=
  fold_left (fun s t => (record_attempt cfg s ip mail false t t t).1) times s.

(** The same on one status. *)
Definition after_failures (cfg : Config) (status : LockoutStatus) (ip mail : string)
    (times : list Q) : LockoutStatus :=
  fold_left (fun st t => after_failure cfg st (mkAttempt t false ip mail) t t)
    times status.

(** The clocks read on entry by the [record_attempt] calls of a sequence
    never run backwards, starting from [bound]. *)
Fixpoint clock_non_decreasing (bound : Q) (calls : list Call) : Prop :=
  match calls with
  | [] => True
  | CallRecordAttempt _ _ _ current_time _ _ :: rest =>
      (bound <= current_time)%Q /\ clock_non_decreasing current_time rest
  | _ :: rest => clock_non_decreasing bound rest
  end.

(** The clock read on entry by the last [record_attempt] of a sequence
    ([bound] when there is none). *)
Fixpoint last_clock (bound : Q) (calls : list Call) : Q :=
  match calls with
  | [] => bound
  | CallRecordAttempt _ _ _ current_time _ _ :: rest => last_clock current_time rest
  | _ :: rest => last_clock bound rest
  end.

(** A history in time order, none of its records later than
    [last_attempt_time], itself not later than [bound]. *)
Definition history_ordered (bound : Q) (status : LockoutStatus) : Prop :=
  StronglySorted (fun a b => (timestamp a <= timestamp b)%Q) (attempts status) /\
  exists latest : Q,
    last_attempt_time status = Some latest /\ (latest <= bound)%Q /\
    Forall (fun a => (timestamp a <= latest)%Q) (attempts status).

Definition store_ordered (bound : Q) (s : BruteForceProtection) : Prop :=
  forall (key : string) (status : LockoutStatus),
    (ip_attempts s !! key = Some status -> history_ordered bound status) /\
    (account_attempts s !! key = Some status -> history_ordered bound status).

(** ** Configurations and runs used in the examples *)

(** [BruteForceProtection(max_attempts=2)]. *)
Definition two_attempt_config : Config := mkConfig 2 300 true 3600 900 3600.

(** [BruteForceProtection(max_lockout_duration=100)]: the base duration
    (300) is above the maximum. *)
Definition low_cap_config : Config := mkConfig 5 300 true 100 900 3600.

(** The spec's concrete scenario:
    [BruteForceProtection(max_attempts=3, lockout_duration=10,
    exponential_backoff=False, window_duration=60)]. *)
Definition scenario_config : Config := mkConfig 3 10 false 3600 60 3600.

(** One failed login from ["1.2.3.4"] for ["a@b.com"], all three clock
    readings of the call being [t]. *)
Definition fail_at (cfg : Config) (s : BruteForceProtection) (t : Q)
    : BruteForceProtection * LockoutResult :=
  record_attempt cfg s "1.2.3.4" "a@b.com" false t t t.

(** The same attempt, successful. *)
Definition succeed_at (cfg : Config) (s : BruteForceProtection) (t : Q)
    : BruteForceProtection * LockoutResult :=
  record_attempt cfg s "1.2.3.4" "a@b.com" true t t t.

(** Failed logins at each of the given times, on an instance created at
    time 0. *)
Definition fail_burst (cfg : Config) (times : list Q) : BruteForceProtection :=
  fold_left (fun s t => (fail_at cfg s t).1) times (init 0).

(** * Basic facts *)

Section Primitives.

Lemma Qltb_lt (a b : Q) : Qltb a b = true <-> (a < b)%Q.
Proof.
  unfold Qltb. rewrite negb_true_iff. split.
  - intros H. apply Qnot_le_lt. intros Hle.
    apply Qle_bool_iff in Hle. congruence.
  - intros H. destruct (Qle_bool b a) eqn:E; [|reflexivity].
    apply Qle_bool_iff in E. exfalso. lra.
Qed.

Lemma Qltb_ge (a b : Q) : Qltb a b = false <-> (b <= a)%Q.
Proof.
  unfold Qltb. rewrite negb_false_iff. apply Qle_bool_iff.
Qed.

Lemma truthy_Some (x : Q) : truthy (Some x) = true <-> ~ (x == 0)%Q.
Proof.
  simpl. rewrite negb_true_iff. split.
  - intros H E. apply Qeq_bool_iff in E. congruence.
  - intros H. destruct (Qeq_bool x 0) eqn:E; [|reflexivity].
    apply Qeq_bool_iff in E. contradiction.
Qed.

Lemma truthy_inv (o : option Q) :
  truthy o = true -> exists x, o = Some x /\ ~ (x == 0)%Q.
Proof.
  destruct o as [x|]; [|discriminate].
  intros H. exists x. split; [reflexivity|]. by apply truthy_Some.
Qed.

(** On a positive float [int] is the floor. *)
Lemma py_int_floor (x : Q) : (0 < x)%Q -> py_int x = Qfloor x.
Proof.
  destruct x as [n d]. unfold py_int, Qfloor, Qlt. simpl.
  intros H. apply Z.quot_div_nonneg; lia.
Qed.

Lemma py_int_bounds (x : Q) :
  (0 < x)%Q -> 0 <= py_int x /\ (inject_Z (py_int x) <= x)%Q /\
               (x < inject_Z (py_int x + 1))%Q.
Proof.
  intros H. rewrite (py_int_floor x H). repeat split.
  - change 0 with (Qfloor 0). apply Qfloor_resp_le. lra.
  - apply Qfloor_le.
  - apply Qlt_floor.
Qed.

(** [py_max] is an upper bound of its arguments and one of them. *)
Lemma py_max_lt (c x : Q) (xs : list Q) :
  (py_max x xs < c)%Q <-> (x < c)%Q /\ Forall (fun y => (y < c)%Q) xs.
Proof.
  unfold py_max. revert x. induction xs as [|y ys IH]; intros x; simpl.
  - split; [intros H; split; [exact H | constructor] | tauto].
  - rewrite IH. destruct (Qltb x y) eqn:E.
    + apply Qltb_lt in E. split.
      * intros [Hy Hys]. split; [lra|]. by constructor.
      * intros [Hx Hall]. inversion Hall; subst. tauto.
    + apply Qltb_ge in E. split.
      * intros [Hx Hys]. split; [exact Hx|]. constructor; [lra | exact Hys].
      * intros [Hx Hall]. inversion Hall; subst. tauto.
Qed.

End Primitives.

(** * The lockout calculator *)

Section Calculator.

Variable cfg : Config.

Lemma calculate_first : _calculate_lockout_duration cfg 0 = lockout_duration cfg.
Proof. unfold _calculate_lockout_duration. by rewrite orb_true_r. Qed.

Lemma calculate_flat (count : N) :
  exponential_backoff cfg = false ->
  _calculate_lockout_duration cfg count = lockout_duration cfg.
Proof. intros H. unfold _calculate_lockout_duration. by rewrite H. Qed.

Lemma calculate_backoff (count : N) :
  exponential_backoff cfg = true -> count <> 0%N ->
  _calculate_lockout_duration cfg count =
  Z.min (lockout_duration cfg * 2 ^ Z.of_N count) (max_lockout_duration cfg).
Proof.
  intros H Hc. unfold _calculate_lockout_duration. rewrite H. simpl.
  apply N.eqb_neq in Hc. by rewrite Hc.
Qed.

Lemma calculate_nonneg (count : N) :
  0 <= lockout_duration cfg -> 0 <= max_lockout_duration cfg ->
  0 <= _calculate_lockout_duration cfg count.
Proof.
  intros Hb Hm. unfold _calculate_lockout_duration.
  destruct (negb (exponential_backoff cfg) || (count =? 0)%N); [exact Hb|].
  apply Z.min_glb; [|exact Hm].
  apply Z.mul_nonneg_nonneg; [exact Hb|]. apply Z.pow_nonneg. lia.
Qed.

Lemma calculate_capped (count : N) :
  exponential_backoff cfg = true -> count <> 0%N ->
  _calculate_lockout_duration cfg count <= max_lockout_duration cfg.
Proof. intros H Hc. rewrite calculate_backoff by assumption. apply Z.le_min_r. Qed.

Lemma calculate_mono (k k' : N) :
  exponential_backoff cfg = true ->
  0 <= lockout_duration cfg <= max_lockout_duration cfg ->
  (k <= k')%N ->
  _calculate_lockout_duration cfg k <= _calculate_lockout_duration cfg k'.
Proof.
  intros H [Hb Hm] Hk.
  assert (Hpow : forall n : N, 1 <= 2 ^ Z.of_N n).
  { intros n. change 1 with (2 ^ 0). apply Z.pow_le_mono_r; lia. }
  destruct (N.eq_dec k' 0%N) as [->|Hk'].
  - assert (k = 0%N) as -> by lia. lia.
  - rewrite (calculate_backoff k') by assumption.
    destruct (N.eq_dec k 0%N) as [->|Hk0].
    + rewrite calculate_first. apply Z.min_glb; [|exact Hm].
      specialize (Hpow k'). nia.
    + rewrite (calculate_backoff k) by assumption.
      apply Z.min_le_compat_r. apply Z.mul_le_mono_nonneg_l; [exact Hb|].
      apply Z.pow_le_mono_r; lia.
Qed.

End Calculator.

(** * The attempt recorder *)

Section Recorder.

Variable cfg : Config.
Variable s : BruteForceProtection.
Variables ip mail : string.
Variables current_time t_ip t_acc : Q.

(** What a failed attempt leaves in the two maps. *)
Lemma record_failure_ip :
  ip_attempts (record_attempt cfg s ip mail false current_time t_ip t_acc).1 !! ip
  = Some (after_failure cfg (getitem (ip_attempts s) ip)
            (mkAttempt current_time false ip mail) current_time t_ip).
Proof. simpl. by rewrite lookup_insert_eq. Qed.

Lemma record_failure_account :
  account_attempts (record_attempt cfg s ip mail false current_time t_ip t_acc).1 !! mail
  = Some (after_failure cfg (getitem (account_attempts s) mail)
            (mkAttempt current_time false ip mail) current_time t_acc).
Proof. simpl. by rewrite lookup_insert_eq. Qed.

(** What a successful attempt leaves in the two maps. *)
Lemma record_success_ip :
  ip_attempts (record_attempt cfg s ip mail true current_time t_ip t_acc).1 !! ip
  = Some (set_failed_attempts
            (track (getitem (ip_attempts s) ip)
               (mkAttempt current_time true ip mail) current_time) 0).
Proof. simpl. by rewrite lookup_insert_eq. Qed.

Lemma record_success_account :
  account_attempts (record_attempt cfg s ip mail true current_time t_ip t_acc).1 !! mail
  = Some (set_failed_attempts
            (track (getitem (account_attempts s) mail)
               (mkAttempt current_time true ip mail) current_time) 0).
Proof. simpl. by rewrite lookup_insert_eq. Qed.

(** Other keys, and the sweep clock, are not touched by either path. *)
Lemma record_other_ip (ok : bool) (k : string) :
  k <> ip ->
  ip_attempts (record_attempt cfg s ip mail ok current_time t_ip t_acc).1 !! k
  = ip_attempts s !! k.
Proof. intros H. destruct ok; simpl; by rewrite lookup_insert_ne. Qed.

Lemma record_other_account (ok : bool) (k : string) :
  k <> mail ->
  account_attempts (record_attempt cfg s ip mail ok current_time t_ip t_acc).1 !! k
  = account_attempts s !! k.
Proof. intros H. destruct ok; simpl; by rewrite lookup_insert_ne. Qed.

Lemma record_last_cleanup (ok : bool) :
  last_cleanup (record_attempt cfg s ip mail ok current_time t_ip t_acc).1
  = last_cleanup s.
Proof. by destruct ok. Qed.

(** The counter after pruning and incrementing. *)
Lemma counted_failed_attempts (old : LockoutStatus) (a : LoginAttempt) (t : Q) :
  failed_attempts (counted cfg old a current_time t)
  = count_failures (attempts (counted cfg old a current_time t)) + 1.
Proof. reflexivity. Qed.

Lemma counted_attempts (old : LockoutStatus) (a : LoginAttempt) (t : Q) :
  attempts (counted cfg old a current_time t)
  = List.filter (in_window (t - inject_Z (window_duration cfg))) (attempts old ++ [a]).
Proof. reflexivity. Qed.

Lemma counted_lockout_count (old : LockoutStatus) (a : LoginAttempt) (t : Q) :
  lockout_count (counted cfg old a current_time t) = lockout_count old.
Proof. reflexivity. Qed.

Lemma counted_locked_until (old : LockoutStatus) (a : LoginAttempt) (t : Q) :
  locked_until (counted cfg old a current_time t) = locked_until old.
Proof. reflexivity. Qed.

Lemma after_failure_failed_attempts (old : LockoutStatus) (a : LoginAttempt) (t : Q) :
  failed_attempts (after_failure cfg old a current_time t)
  = failed_attempts (counted cfg old a current_time t).
Proof. unfold after_failure. by destruct (threshold_reached _ _). Qed.

Lemma after_failure_attempts (old : LockoutStatus) (a : LoginAttempt) (t : Q) :
  attempts (after_failure cfg old a current_time t)
  = attempts (counted cfg old a current_time t).
Proof. unfold after_failure. by destruct (threshold_reached _ _). Qed.

End Recorder.


(** * The garbage collector *)

Section Collector.

Variable cfg : Config.

Lemma latest_timestamp_lt (c : Q) (l : list LoginAttempt) :
  (l = [] \/ exists latest, latest_timestamp l = Some latest /\ (latest < c)%Q)
  <-> Forall (fun a => (timestamp a < c)%Q) l.
Proof.
  destruct l as [|a rest]; simpl.
  - split; [constructor | by left].
  - split.
    + intros [H|(m & Hm & Hlt)]; [discriminate|].
      injection Hm as <-. apply py_max_lt in Hlt as [Ha Hrest].
      constructor; [exact Ha|]. by apply Forall_map in Hrest.
    + intros H. inversion H as [|? ? Ha Hrest]; subst. right.
      eexists; split; [reflexivity|]. apply py_max_lt. split; [exact Ha|].
      by apply Forall_map.
Qed.

Lemma sweepable_true (now : Q) (status : LockoutStatus) :
  sweepable cfg now status = true <-> expired_and_idle cfg now status.
Proof.
  unfold sweepable, expired_and_idle. rewrite !andb_true_iff. split.
  - intros [[Ht Hlu] Hidle].
    apply truthy_inv in Ht as (lu & Elu & Hnz). rewrite Elu in Hlu.
    apply Qltb_lt in Hlu. split; [by exists lu|].
    destruct (attempts status) as [|a rest]; [by left|]. right.
    simpl in *. eexists; split; [reflexivity|]. by apply Qltb_lt.
  - intros [(lu & Elu & Hnz & Hlt) Hidle]. rewrite Elu. repeat split.
    + by apply truthy_Some.
    + by apply Qltb_lt.
    + destruct Hidle as [->|(m & Hm & Hlt')]; [reflexivity|].
      rewrite Hm. by apply Qltb_lt.
Qed.

Lemma sweep_lookup (now : Q) (m : gmap string LockoutStatus) (key : string) :
  sweep cfg now m !! key =
  match m !! key with
  | Some status => if sweepable cfg now status then None else Some status
  | None => None
  end.
Proof.
  unfold sweep. destruct (m !! key) as [status|] eqn:E.
  - destruct (sweepable cfg now status) eqn:Es.
    + apply map_lookup_filter_None. right. intros x Hx. simpl.
      assert (x = status) as -> by congruence. congruence.
    + apply map_lookup_filter_Some. by split.
  - apply map_lookup_filter_None. by left.
Qed.

Lemma sweep_entry (now : Q) (m : gmap string LockoutStatus) (key : string) :
  swept_entry cfg now (m !! key) (sweep cfg now m !! key).
Proof.
  rewrite sweep_lookup. unfold swept_entry.
  destruct (m !! key) as [status|]; [|reflexivity].
  destruct (sweepable cfg now status) eqn:Es.
  - apply sweepable_true in Es. split; [reflexivity | contradiction].
  - split; [|reflexivity]. intros H. apply sweepable_true in H. congruence.
Qed.

Lemma cleanup_skipped (s : BruteForceProtection) (now : Q) :
  (now - last_cleanup s < inject_Z (cleanup_interval cfg))%Q ->
  _cleanup_old_data cfg s now = s.
Proof.
  intros H. unfold _cleanup_old_data. apply Qltb_lt in H. by rewrite H.
Qed.

Lemma cleanup_runs (s : BruteForceProtection) (now : Q) :
  (inject_Z (cleanup_interval cfg) <= now - last_cleanup s)%Q ->
  _cleanup_old_data cfg s now =
  mkStore (sweep cfg now (ip_attempts s)) (sweep cfg now (account_attempts s)) now.
Proof.
  intros H. unfold _cleanup_old_data. apply Qltb_ge in H. by rewrite H.
Qed.

(** Whether or not the sweep runs, it only deletes entries, and only
    entries whose lock is set and over. *)
Lemma cleanup_lookup_ip (s : BruteForceProtection) (now : Q) (key : string) :
  ip_attempts (_cleanup_old_data cfg s now) !! key = ip_attempts s !! key \/
  (ip_attempts (_cleanup_old_data cfg s now) !! key = None /\
   exists status, ip_attempts s !! key = Some status /\ expired_and_idle cfg now status).
Proof.
  unfold _cleanup_old_data. destruct (Qltb _ _); [by left|]. simpl.
  rewrite sweep_lookup. destruct (ip_attempts s !! key) as [status|]; [|by left].
  destruct (sweepable cfg now status) eqn:Es; [|by left].
  right. split; [reflexivity|]. exists status. split; [reflexivity|].
  by apply sweepable_true.
Qed.

Lemma cleanup_lookup_account (s : BruteForceProtection) (now : Q) (key : string) :
  account_attempts (_cleanup_old_data cfg s now) !! key = account_attempts s !! key \/
  (account_attempts (_cleanup_old_data cfg s now) !! key = None /\
   exists status, account_attempts s !! key = Some status /\
                  expired_and_idle cfg now status).
Proof.
  unfold _cleanup_old_data. destruct (Qltb _ _); [by left|]. simpl.
  rewrite sweep_lookup. destruct (account_attempts s !! key) as [status|]; [|by left].
  destruct (sweepable cfg now status) eqn:Es; [|by left].
  right. split; [reflexivity|]. exists status. split; [reflexivity|].
  by apply sweepable_true.
Qed.

End Collector.

(** * The lock check *)

Section LockCheck.

Variable cfg : Config.

Lemma check_lock_outcome (m : gmap string LockoutStatus) (key : string) (now : Q) :
  lock_check_outcome now (m !! key) ((check_lock m key now).1 !! key)
    (check_lock m key now).2.
Proof.
  unfold lock_check_outcome, check_lock.
  destruct (m !! key) as [status|] eqn:E; simpl; [|by rewrite E].
  destruct (locked_until status) as [lu|] eqn:Elu; simpl; [|by rewrite E].
  destruct (Qeq_bool lu 0) eqn:Ez; simpl.
  - apply Qeq_bool_iff in Ez. rewrite E.
    split; [by intros _ | split; intros Hnz; contradiction].
  - assert (Hnz : ~ (lu == 0)%Q).
    { intros H. apply Qeq_bool_iff in H. congruence. }
    split; [intros H; contradiction|].
    destruct (Qltb now lu) eqn:Elt; simpl.
    + apply Qltb_lt in Elt. rewrite E. split.
      * intros _ _. assert (Hpos : (0 < lu - now)%Q) by lra.
        destruct (py_int_bounds _ Hpos) as (H0 & Hle & Hlt).
        by exists (py_int (lu - now)).
      * intros _ Hle. exfalso. lra.
    + apply Qltb_ge in Elt. rewrite lookup_insert_eq. split.
      * intros _ Hlt. exfalso. lra.
      * intros _ _. split; [reflexivity | by left].
Qed.

Lemma check_lock_absent (m : gmap string LockoutStatus) (key : string) (now : Q) :
  m !! key = None -> check_lock m key now = (m, (false, None)).
Proof. intros H. unfold check_lock. by rewrite H. Qed.

Lemma check_lock_locked (m : gmap string LockoutStatus) (key : string) (now : Q)
    (status : LockoutStatus) (lu : Q) :
  m !! key = Some status -> locked_until status = Some lu ->
  ~ (lu == 0)%Q -> (now < lu)%Q ->
  check_lock m key now = (m, (true, Some (py_int (lu - now)))).
Proof.
  intros E Elu Hnz Hlt. unfold check_lock. rewrite E, Elu.
  apply truthy_Some in Hnz. rewrite Hnz. simpl.
  apply Qltb_lt in Hlt. by rewrite Hlt.
Qed.

Lemma is_ip_locked_outcome (s : BruteForceProtection) (key : string)
    (t_sweep now : Q) :
  (t_sweep <= now)%Q ->
  lock_check_outcome now (ip_attempts s !! key)
    (ip_attempts (is_ip_locked cfg s key t_sweep now).1 !! key)
    (is_ip_locked cfg s key t_sweep now).2.
Proof.
  intros Hclock. unfold is_ip_locked.
  pose proof (check_lock_outcome (ip_attempts (_cleanup_old_data cfg s t_sweep)) key now)
    as Hcl.
  destruct (check_lock _ key now) as [m r] eqn:Ecl. simpl in *.
  destruct (cleanup_lookup_ip cfg s t_sweep key)
    as [Hsame | (Hgone & status & Hst & (lu & Elu & Hnz & Hlt) & _)].
  - by rewrite Hsame in Hcl.
  - rewrite Hgone in Hcl. destruct Hcl as [-> ->].
    unfold lock_check_outcome. rewrite Hst, Elu.
    split; [intros H; contradiction|]. split.
    + intros _ H. exfalso. lra.
    + intros _ _. split; [reflexivity | by right].
Qed.

Lemma is_account_locked_outcome (s : BruteForceProtection) (key : string)
    (t_sweep now : Q) :
  (t_sweep <= now)%Q ->
  lock_check_outcome now (account_attempts s !! key)
    (account_attempts (is_account_locked cfg s key t_sweep now).1 !! key)
    (is_account_locked cfg s key t_sweep now).2.
Proof.
  intros Hclock. unfold is_account_locked.
  pose proof (check_lock_outcome (account_attempts (_cleanup_old_data cfg s t_sweep))
                key now) as Hcl.
  destruct (check_lock _ key now) as [m r] eqn:Ecl. simpl in *.
  destruct (cleanup_lookup_account cfg s t_sweep key)
    as [Hsame | (Hgone & status & Hst & (lu & Elu & Hnz & Hlt) & _)].
  - by rewrite Hsame in Hcl.
  - rewrite Hgone in Hcl. destruct Hcl as [-> ->].
    unfold lock_check_outcome. rewrite Hst, Elu.
    split; [intros H; contradiction|]. split.
    + intros _ H. exfalso. lra.
    + intros _ _. split; [reflexivity | by right].
Qed.

(** A key whose lock is still running at [now] is reported locked, sweep
    or no sweep. *)
Lemma is_ip_locked_running (s : BruteForceProtection) (key : string)
    (t_sweep now : Q) (status : LockoutStatus) (lu : Q) :
  (t_sweep <= now)%Q ->
  ip_attempts s !! key = Some status -> locked_until status = Some lu ->
  ~ (lu == 0)%Q -> (now < lu)%Q ->
  (is_ip_locked cfg s key t_sweep now).2 = (true, Some (py_int (lu - now))).
Proof.
  intros Hclock E Elu Hnz Hlt. unfold is_ip_locked.
  destruct (cleanup_lookup_ip cfg s t_sweep key)
    as [Hsame | (_ & st' & Hst & (lu' & Elu' & _ & Hlt') & _)].
  - rewrite E in Hsame.
    by rewrite (check_lock_locked _ _ _ _ _ Hsame Elu Hnz Hlt).
  - exfalso. assert (st' = status) as -> by congruence.
    assert (lu' = lu) as -> by congruence. lra.
Qed.

Lemma is_account_locked_running (s : BruteForceProtection) (key : string)
    (t_sweep now : Q) (status : LockoutStatus) (lu : Q) :
  (t_sweep <= now)%Q ->
  account_attempts s !! key = Some status -> locked_until status = Some lu ->
  ~ (lu == 0)%Q -> (now < lu)%Q ->
  (is_account_locked cfg s key t_sweep now).2 = (true, Some (py_int (lu - now))).
Proof.
  intros Hclock E Elu Hnz Hlt. unfold is_account_locked.
  destruct (cleanup_lookup_account cfg s t_sweep key)
    as [Hsame | (_ & st' & Hst & (lu' & Elu' & _ & Hlt') & _)].
  - rewrite E in Hsame.
    by rewrite (check_lock_locked _ _ _ _ _ Hsame Elu Hnz Hlt).
  - exfalso. assert (st' = status) as -> by congruence.
    assert (lu' = lu) as -> by congruence. lra.
Qed.

End LockCheck.

(** * Counting failures in a pruned history *)

Section Counting.

Lemma count_failures_app (l1 l2 : list LoginAttempt) :
  count_failures (l1 ++ l2) = count_failures l1 + count_failures l2.
Proof.
  unfold count_failures. rewrite List.filter_app, length_app. lia.
Qed.

Lemma count_failures_nonneg (l : list LoginAttempt) : 0 <= count_failures l.
Proof. unfold count_failures. lia. Qed.

Lemma count_failures_pruned_app (c : Q) (l1 l2 : list LoginAttempt) :
  count_failures (List.filter (in_window c) (l1 ++ l2))
  = count_failures (List.filter (in_window c) l1)
    + count_failures (List.filter (in_window c) l2).
Proof. by rewrite List.filter_app, count_failures_app. Qed.

(** A history that lies entirely before the cutoff is pruned away. *)
Lemma prune_stale (c : Q) (l : list LoginAttempt) :
  Forall (fun a => (timestamp a <= c)%Q) l -> List.filter (in_window c) l = [].
Proof.
  induction 1 as [|a l Ha _ IH]; [reflexivity|]. simpl.
  unfold in_window at 1. apply Qltb_ge in Ha. by rewrite Ha.
Qed.

(** After a failure that follows only stale history, the counter is 2:
    the new record is counted by the pruner and once more by the
    increment. *)
Lemma counted_after_stale_history (cfg : Config) (old : LockoutStatus)
    (ip mail : string) (now t_prune : Q) :
  Forall (fun a => (timestamp a <= t_prune - inject_Z (window_duration cfg))%Q)
         (attempts old) ->
  (t_prune - inject_Z (window_duration cfg) < now)%Q ->
  attempts (counted cfg old (mkAttempt now false ip mail) now t_prune)
    = [mkAttempt now false ip mail] /\
  failed_attempts (counted cfg old (mkAttempt now false ip mail) now t_prune) = 2.
Proof.
  intros Hold Hnew.
  assert (E : attempts (counted cfg old (mkAttempt now false ip mail) now t_prune)
              = [mkAttempt now false ip mail]).
  { rewrite counted_attempts, List.filter_app, (prune_stale _ _ Hold). simpl.
    unfold in_window. simpl. apply Qltb_lt in Hnew. by rewrite Hnew. }
  split; [exact E|]. rewrite counted_failed_attempts, E. reflexivity.
Qed.

End Counting.

(** * Locks imposed on the failure path *)

Section Imposed.

Variable cfg : Config.

Lemma after_failure_fired (old : LockoutStatus) (a : LoginAttempt) (now t : Q) :
  threshold_reached cfg (counted cfg old a now t) = true ->
  locked_until (after_failure cfg old a now t)
    = Some (now + inject_Z (_calculate_lockout_duration cfg (lockout_count old)))%Q /\
  lockout_count (after_failure cfg old a now t) = (lockout_count old + 1)%N.
Proof. intros H. unfold after_failure. rewrite H. by split. Qed.

Lemma after_failure_not_fired (old : LockoutStatus) (a : LoginAttempt) (now t : Q) :
  threshold_reached cfg (counted cfg old a now t) = false ->
  locked_until (after_failure cfg old a now t) = locked_until old /\
  lockout_count (after_failure cfg old a now t) = lockout_count old.
Proof. intros H. unfold after_failure. rewrite H. by split. Qed.

Lemma record_failure_flags (s : BruteForceProtection) (ip mail : string)
    (now t_ip t_acc : Q) :
  let a := mkAttempt now false ip mail in
  let r := (record_attempt cfg s ip mail false now t_ip t_acc).2 in
  ip_locked r
    = Some (threshold_reached cfg (counted cfg (getitem (ip_attempts s) ip) a now t_ip)) /\
  account_locked r
    = Some (threshold_reached cfg
              (counted cfg (getitem (account_attempts s) mail) a now t_acc)).
Proof.
  unfold record_attempt, counted. cbv beta iota zeta delta [snd].
  destruct (threshold_reached cfg _), (threshold_reached cfg _); by split.
Qed.

(** The lock a failed attempt imposes on a key, read from the store. *)
Lemma record_failure_imposed_ip (s : BruteForceProtection) (ip mail : string)
    (now t_ip t_acc : Q) :
  let old := getitem (ip_attempts s) ip in
  let out := record_attempt cfg s ip mail false now t_ip t_acc in
  (ip_locked out.2 = Some true ->
     locked_until <$> ip_attempts out.1 !! ip
       = Some (Some (now + inject_Z (_calculate_lockout_duration cfg (lockout_count old)))%Q) /\
     lockout_count <$> ip_attempts out.1 !! ip = Some (lockout_count old + 1)%N) /\
  (ip_locked out.2 = Some false ->
     locked_until <$> ip_attempts out.1 !! ip = Some (locked_until old) /\
     lockout_count <$> ip_attempts out.1 !! ip = Some (lockout_count old)).
Proof.
  cbv zeta. destruct (record_failure_flags s ip mail now t_ip t_acc) as [Hflag _].
  cbv zeta in Hflag. rewrite Hflag, record_failure_ip. simpl fmap.
  split; intros [= H].
  - destruct (after_failure_fired _ _ _ _ H) as [-> ->]. by split.
  - destruct (after_failure_not_fired _ _ _ _ H) as [-> ->]. by split.
Qed.

Lemma record_failure_imposed_account (s : BruteForceProtection) (ip mail : string)
    (now t_ip t_acc : Q) :
  let old := getitem (account_attempts s) mail in
  let out := record_attempt cfg s ip mail false now t_ip t_acc in
  (account_locked out.2 = Some true ->
     locked_until <$> account_attempts out.1 !! mail
       = Some (Some (now + inject_Z (_calculate_lockout_duration cfg (lockout_count old)))%Q) /\
     lockout_count <$> account_attempts out.1 !! mail = Some (lockout_count old + 1)%N) /\
  (account_locked out.2 = Some false ->
     locked_until <$> account_attempts out.1 !! mail = Some (locked_until old) /\
     lockout_count <$> account_attempts out.1 !! mail = Some (lockout_count old)).
Proof.
  cbv zeta. destruct (record_failure_flags s ip mail now t_ip t_acc) as [_ Hflag].
  cbv zeta in Hflag. rewrite Hflag, record_failure_account. simpl fmap.
  split; intros [= H].
  - destruct (after_failure_fired _ _ _ _ H) as [-> ->]. by split.
  - destruct (after_failure_not_fired _ _ _ _ H) as [-> ->]. by split.
Qed.

End Imposed.

(** * Properties of the engine *)

(** C1.  After [record_attempt] has processed a failed attempt, the
    failed-attempt counter of the address status and of the account status
    is NOT the number of failure records in the pruned history: for every
    input it is that number plus one, because the record appended before
    pruning is counted by [_prune_old_attempts] and then once more by the
    increment that follows.  On a new instance with the default
    configuration, one failed attempt leaves one failure record and a
    counter of 2. *)
Theorem record_attempt_failure_counter_off_by_one
    (cfg : Config) (s : BruteForceProtection) (ip mail : string)
    (now t_ip t_acc : Q) :
  let s' := (record_attempt cfg s ip mail false now t_ip t_acc).1 in
  (exists st, ip_attempts s' !! ip = Some st /\
     attempts st
       = List.filter (in_window (t_ip - inject_Z (window_duration cfg)))
           (attempts (getitem (ip_attempts s) ip) ++ [mkAttempt now false ip mail]) /\
     failed_attempts st = count_failures (attempts st) + 1) /\
  (exists st, account_attempts s' !! mail = Some st /\
     attempts st
       = List.filter (in_window (t_acc - inject_Z (window_duration cfg)))
           (attempts (getitem (account_attempts s) mail) ++ [mkAttempt now false ip mail]) /\
     failed_attempts st = count_failures (attempts st) + 1) /\
  (exists st, ip_attempts (fail_at default_config (init 0) 1000).1 !! "1.2.3.4" = Some st /\
     failed_attempts st = 2 /\ count_failures (attempts st) = 1).
Proof.
  cbv zeta. split; [|split].
  - eexists. split; [apply record_failure_ip|].
    rewrite after_failure_failed_attempts, after_failure_attempts. by split.
  - eexists. split; [apply record_failure_account|].
    rewrite after_failure_failed_attempts, after_failure_attempts. by split.
  - eexists. split; [vm_compute; reflexivity|]. by split.
Qed.

(** C2.  The sliding-window scenario evaluated on the code with
    [max_attempts = 2]: one failure at time 100, which is older than the
    900-second window at time 2000, then one failure at time 2000.  The
    pruned history holds the recent failure only, yet the counter is 2,
    both thresholds fire, the call returns [locked = True], and the lock
    checks report both keys locked.  (The old failure had locked them as
    well, and with the default [max_attempts = 5] the fourth of four quick
    failures returns [locked = True].) *)
Theorem sliding_window_run_locks :
  let r1 := fail_at two_attempt_config (init 0) 100 in
  let r2 := fail_at two_attempt_config r1.1 2000 in
  (100 < 2000 - inject_Z (window_duration two_attempt_config))%Q /\
  locked r1.2 = true /\
  attempts <$> ip_attempts r2.1 !! "1.2.3.4"
    = Some [mkAttempt 2000 false "1.2.3.4" "a@b.com"] /\
  failed_attempts <$> ip_attempts r2.1 !! "1.2.3.4" = Some 2 /\
  r2.2 = mkResult true (Some "both"%string) 600 (Some true) (Some true) /\
  (is_ip_locked two_attempt_config r2.1 "1.2.3.4" 2000 2000).2 = (true, Some 600) /\
  (is_account_locked two_attempt_config r2.1 "a@b.com" 2000 2000).2 = (true, Some 600) /\
  locked (fail_at default_config (fail_burst default_config [1000; 1001; 1002]%Q) 1003).2
    = true.
Proof. vm_compute. repeat split. Qed.

(** C5.  [_calculate_lockout_duration] returns the base duration when
    exponential backoff is disabled or [lockout_count] is 0, and otherwise
    the smaller of [base * 2 ^ lockout_count] and the maximum duration.  It
    is a function of the configuration and the count alone: it neither
    reads nor returns the engine's state. *)
Theorem calculate_lockout_duration_cases (cfg : Config) (lockout_count : N) :
  (exponential_backoff cfg = false \/ lockout_count = 0%N ->
     _calculate_lockout_duration cfg lockout_count = lockout_duration cfg) /\
  (exponential_backoff cfg = true /\ lockout_count <> 0%N ->
     _calculate_lockout_duration cfg lockout_count
     = Z.min (lockout_duration cfg * 2 ^ Z.of_N lockout_count)
             (max_lockout_duration cfg)).
Proof.
  split.
  - intros [H| ->]; [by apply calculate_flat | apply calculate_first].
  - intros [H Hc]. by apply calculate_backoff.
Qed.

(** C6, as stated, fails when the base duration exceeds the maximum:
    with base 300 and maximum 100 the first lockout of a key lasts 300
    seconds and the second 100. *)
Lemma backoff_drops_when_base_exceeds_cap :
  let s4 := fail_burst low_cap_config [1000; 1001; 1002; 1003]%Q in
  let r5 := fail_at low_cap_config s4 1004 in
  exponential_backoff low_cap_config = true /\
  _calculate_lockout_duration low_cap_config 0 = 300 /\
  _calculate_lockout_duration low_cap_config 1 = 100 /\
  lockout_count <$> ip_attempts s4 !! "1.2.3.4" = Some 1%N /\
  locked_until <$> ip_attempts s4 !! "1.2.3.4" = Some (Some (1003 + 300)%Q) /\
  lockout_count <$> ip_attempts r5.1 !! "1.2.3.4" = Some 2%N /\
  locked_until <$> ip_attempts r5.1 !! "1.2.3.4" = Some (Some (1004 + 100)%Q).
Proof. vm_compute. repeat split. Qed.

(** C6, amended.  With exponential backoff enabled and
    [0 <= base <= maximum]: a failed attempt that locks a key whose status
    has [lockout_count = k] locks it for [_calculate_lockout_duration k]
    seconds and raises [lockout_count] to [k + 1], and one that does not
    lock the key leaves both fields alone; so the successive lockouts of a
    status last [base], [min (2 * base) maximum], [min (4 * base) maximum],
    ...  That duration is non-decreasing in [lockout_count] and never
    exceeds the maximum. *)
Theorem backoff_sequence (cfg : Config) :
  exponential_backoff cfg = true ->
  0 <= lockout_duration cfg <= max_lockout_duration cfg ->
  (forall (s : BruteForceProtection) (ip mail : string) (now t_ip t_acc : Q),
     let old_ip := getitem (ip_attempts s) ip in
     let old_account := getitem (account_attempts s) mail in
     let out := record_attempt cfg s ip mail false now t_ip t_acc in
     (ip_locked out.2 = Some true ->
        locked_until <$> ip_attempts out.1 !! ip
          = Some (Some (now
               + inject_Z (_calculate_lockout_duration cfg (lockout_count old_ip)))%Q) /\
        lockout_count <$> ip_attempts out.1 !! ip = Some (lockout_count old_ip + 1)%N) /\
     (ip_locked out.2 = Some false ->
        locked_until <$> ip_attempts out.1 !! ip = Some (locked_until old_ip) /\
        lockout_count <$> ip_attempts out.1 !! ip = Some (lockout_count old_ip)) /\
     (account_locked out.2 = Some true ->
        locked_until <$> account_attempts out.1 !! mail
          = Some (Some (now
               + inject_Z (_calculate_lockout_duration cfg (lockout_count old_account)))%Q) /\
        lockout_count <$> account_attempts out.1 !! mail
          = Some (lockout_count old_account + 1)%N) /\
     (account_locked out.2 = Some false ->
        locked_until <$> account_attempts out.1 !! mail = Some (locked_until old_account) /\
        lockout_count <$> account_attempts out.1 !! mail
          = Some (lockout_count old_account))) /\
  _calculate_lockout_duration cfg 0 = lockout_duration cfg /\
  (forall k : N, k <> 0%N ->
     _calculate_lockout_duration cfg k
     = Z.min (lockout_duration cfg * 2 ^ Z.of_N k) (max_lockout_duration cfg)) /\
  (forall k k' : N, (k <= k')%N ->
     _calculate_lockout_duration cfg k <= _calculate_lockout_duration cfg k') /\
  (forall k : N, _calculate_lockout_duration cfg k <= max_lockout_duration cfg).
Proof.
  intros Hexp Hcfg. split; [|split; [|split; [|split]]].
  - intros s ip mail now t_ip t_acc. cbv zeta.
    destruct (record_failure_imposed_ip cfg s ip mail now t_ip t_acc) as [H1 H2].
    destruct (record_failure_imposed_account cfg s ip mail now t_ip t_acc) as [H3 H4].
    split; [exact H1|]. split; [exact H2|]. split; [exact H3 | exact H4].
  - apply calculate_first.
  - intros k Hk. by apply calculate_backoff.
  - intros k k' Hk. by apply calculate_mono.
  - intros k. destruct (N.eq_dec k 0%N) as [->|Hk].
    + rewrite calculate_first. lia.
    + by apply calculate_capped.
Qed.

Lemma backoff_sequence_witness :
  exponential_backoff default_config = true /\
  0 <= lockout_duration default_config <= max_lockout_duration default_config /\
  _calculate_lockout_duration default_config 0 = lockout_duration default_config /\
  (forall k k' : N, (k <= k')%N ->
     _calculate_lockout_duration default_config k
     <= _calculate_lockout_duration default_config k').
Proof.
  assert (Hexp : exponential_backoff default_config = true) by reflexivity.
  assert (Hcfg : 0 <= lockout_duration default_config
                 <= max_lockout_duration default_config) by (simpl; lia).
  split; [exact Hexp|]. split; [exact Hcfg|].
  pose proof (backoff_sequence default_config Hexp Hcfg) as H.
  split; [exact (proj1 (proj2 H)) | exact (proj1 (proj2 (proj2 (proj2 H))))].
Defined.

(** What the sweep does, for every input.  A call of [_cleanup_old_data]
    at [now] leaves the engine unchanged while [now - last_cleanup] is
    below [cleanup_interval].  Otherwise it sets [last_cleanup] to [now]
    and removes an entry exactly when its [locked_until] is set and
    earlier than [now] and its history is empty or its most recent
    timestamp is earlier than [now - window_duration]; every other entry
    is kept as it was, among them every entry whose [locked_until] is
    unset. *)
Theorem cleanup_removes_expired_idle_entries
    (cfg : Config) (s : BruteForceProtection) (now : Q) :
  let s' := _cleanup_old_data cfg s now in
  ((now - last_cleanup s < inject_Z (cleanup_interval cfg))%Q -> s' = s) /\
  ((inject_Z (cleanup_interval cfg) <= now - last_cleanup s)%Q ->
     last_cleanup s' = now /\
     forall key : string,
       swept_entry cfg now (ip_attempts s !! key) (ip_attempts s' !! key) /\
       swept_entry cfg now (account_attempts s !! key) (account_attempts s' !! key)) /\
  (forall (key : string) (status : LockoutStatus),
     ip_attempts s !! key = Some status -> locked_until status = None ->
     ip_attempts s' !! key = Some status) /\
  (forall (key : string) (status : LockoutStatus),
     account_attempts s !! key = Some status -> locked_until status = None ->
     account_attempts s' !! key = Some status).
Proof.
  cbv zeta. split; [apply cleanup_skipped|]. split; [|split].
  - intros H. rewrite (cleanup_runs cfg s now H). simpl.
    split; [reflexivity|]. intros key. split; apply sweep_entry.
  - intros key status E Hnone.
    destruct (cleanup_lookup_ip cfg s now key)
      as [-> | (_ & st' & Hst & (lu & Elu & _) & _)]; [exact E|].
    congruence.
  - intros key status E Hnone.
    destruct (cleanup_lookup_account cfg s now key)
      as [-> | (_ & st' & Hst & (lu & Elu & _) & _)]; [exact E|].
    congruence.
Qed.

(** C3.  The sweep does NOT remove every entry that is unlocked and idle,
    as the claim and the docstring of [_cleanup_old_data] ("Remove old
    attempt data to prevent memory bloat") have it: its test
    [status.locked_until and status.locked_until < current_time] asks for
    a lock that is set, so for every input an entry whose [locked_until]
    is unset stays in its map.  Evaluated on the code:
    - a key with one failure at time 1000 and no lock is still in both
      maps after the sweep that runs at time 10000, with its 9000 seconds
      old record, although more than [cleanup_interval] has passed and the
      record is older than the window; the sweep inside a lock check keeps
      it too;
    - a key locked until 1303 is removed by a sweep at time 1000000, but
      when a lock check at time 1400 has first cleared the expired lock,
      the same sweep keeps the entry. *)
Theorem cleanup_never_collects_unlocked_entries :
  (forall (cfg : Config) (s : BruteForceProtection) (now : Q) (key : string)
          (status : LockoutStatus),
     locked_until status = None ->
     (ip_attempts s !! key = Some status ->
      ip_attempts (_cleanup_old_data cfg s now) !! key = Some status) /\
     (account_attempts s !! key = Some status ->
      account_attempts (_cleanup_old_data cfg s now) !! key = Some status)) /\
  (let s1 := (fail_at default_config (init 0) 1000).1 in
   let s2 := _cleanup_old_data default_config s1 10000 in
   let st := mkStatus 2 (Some 1000%Q) (Some 1000%Q) None 0
               [mkAttempt 1000 false "1.2.3.4" "a@b.com"] in
   ip_attempts s1 !! "1.2.3.4" = Some st /\
   account_attempts s1 !! "a@b.com" = Some st /\
   (1000 < 10000 - inject_Z (window_duration default_config))%Q /\
   (last_cleanup s1 + inject_Z (cleanup_interval default_config) < 10000)%Q /\
   last_cleanup s2 = 10000%Q /\
   ip_attempts s2 !! "1.2.3.4" = Some st /\
   account_attempts s2 !! "a@b.com" = Some st /\
   ip_attempts (is_ip_locked default_config s1 "1.2.3.4" 10000 10000).1 !! "1.2.3.4"
     = Some st) /\
  (let s4 := fail_burst default_config [1000; 1001; 1002; 1003]%Q in
   let checked := (is_ip_locked default_config s4 "1.2.3.4" 1400 1400).1 in
   locked_until <$> ip_attempts s4 !! "1.2.3.4" = Some (Some 1303%Q) /\
   ip_attempts (_cleanup_old_data default_config s4 1000000) !! "1.2.3.4" = None /\
   locked_until <$> ip_attempts checked !! "1.2.3.4" = Some None /\
   last_cleanup (_cleanup_old_data default_config checked 1000000) = 1000000%Q /\
   is_Some (ip_attempts (_cleanup_old_data default_config checked 1000000)
              !! "1.2.3.4")).
Proof.
  split; [|split].
  - intros cfg s now key status Hnone. split; intros E.
    + destruct (cleanup_lookup_ip cfg s now key)
        as [-> | (_ & st' & Hst & (lu & Elu & _) & _)]; [exact E|].
      congruence.
    + destruct (cleanup_lookup_account cfg s now key)
        as [-> | (_ & st' & Hst & (lu & Elu & _) & _)]; [exact E|].
      congruence.
  - vm_compute. repeat split.
  - vm_compute. repeat split. by eexists.
Qed.

(** C4.  For a failed attempt (lock durations being non-negative, as with
    every configuration whose two durations are), the result has
    [locked = True] exactly when the address threshold or the account
    threshold fired; its reason is ["ip"] (the address key), ["account"]
    or ["both"] according to which fired, and [None] when neither did; its
    duration is the larger of the durations of the locks imposed, the one
    imposed when a single threshold fired, and 0 when neither did.  Each
    threshold that fires locks its status for the duration reported. *)
Theorem record_attempt_failure_result
    (cfg : Config) (s : BruteForceProtection) (ip mail : string)
    (now t_ip t_acc : Q) :
  0 <= lockout_duration cfg -> 0 <= max_lockout_duration cfg ->
  let a := mkAttempt now false ip mail in
  let old_ip := getitem (ip_attempts s) ip in
  let old_account := getitem (account_attempts s) mail in
  let ip_fired := threshold_reached cfg (counted cfg old_ip a now t_ip) in
  let account_fired := threshold_reached cfg (counted cfg old_account a now t_acc) in
  let d_ip := _calculate_lockout_duration cfg (lockout_count old_ip) in
  let d_account := _calculate_lockout_duration cfg (lockout_count old_account) in
  let out := record_attempt cfg s ip mail false now t_ip t_acc in
  locked out.2 = ip_fired || account_fired /\
  reason out.2
    = match ip_fired, account_fired with
      | true, true => Some "both"%string
      | true, false => Some "ip"%string
      | false, true => Some "account"%string
      | false, false => None
      end /\
  result_lockout_duration out.2
    = match ip_fired, account_fired with
      | true, true => Z.max d_ip d_account
      | true, false => d_ip
      | false, true => d_account
      | false, false => 0
      end /\
  (ip_fired = true ->
     locked_until <$> ip_attempts out.1 !! ip = Some (Some (now + inject_Z d_ip)%Q)) /\
  (account_fired = true ->
     locked_until <$> account_attempts out.1 !! mail
       = Some (Some (now + inject_Z d_account)%Q)).
Proof.
  intros Hb Hm. cbv zeta.
  pose proof (calculate_nonneg cfg
                (lockout_count (getitem (account_attempts s) mail)) Hb Hm) as Hacc.
  rewrite record_failure_ip, record_failure_account.
  unfold record_attempt, after_failure. cbv beta iota zeta delta [snd].
  fold (counted cfg (getitem (ip_attempts s) ip) (mkAttempt now false ip mail) now t_ip).
  fold (counted cfg (getitem (account_attempts s) mail)
          (mkAttempt now false ip mail) now t_acc).
  destruct (threshold_reached cfg (counted cfg (getitem (ip_attempts s) ip) _ _ _)),
    (threshold_reached cfg (counted cfg (getitem (account_attempts s) mail) _ _ _));
    simpl; repeat split; try discriminate; try reflexivity.
  apply Z.max_r. exact Hacc.
Qed.

Lemma record_attempt_failure_result_witness :
  (0 <= lockout_duration scenario_config /\ 0 <= max_lockout_duration scenario_config) /\
  let out := fail_at scenario_config (fail_burst scenario_config [1000; 1001]%Q) 1002 in
  locked out.2 = true /\ reason out.2 = Some "both"%string /\
  result_lockout_duration out.2 = 10.
Proof.
  assert (Hb : 0 <= lockout_duration scenario_config) by (simpl; lia).
  assert (Hm : 0 <= max_lockout_duration scenario_config) by (simpl; lia).
  split; [by split|].
  pose proof (record_attempt_failure_result scenario_config
                (fail_burst scenario_config [1000; 1001]%Q)
                "1.2.3.4" "a@b.com" 1002 1002 1002 Hb Hm) as H.
  cbv zeta in H. destruct H as (H1 & H2 & H3 & _).
  cbv zeta. unfold fail_at.
  split; [rewrite H1; vm_compute; reflexivity|].
  split; [rewrite H2; vm_compute; reflexivity|].
  rewrite H3. vm_compute. reflexivity.
Defined.

(** C7, as stated, fails on the value returned for a running lock: the
    remaining time is cut to whole seconds.  Four quick failures lock the
    address until time 1303; a check at time 1302.5 returns [(True, 0)],
    not the half second that is left. *)
Lemma lock_check_truncates_remaining_time :
  let s4 := fail_burst default_config [1000; 1001; 1002; 1003]%Q in
  locked_until <$> ip_attempts s4 !! "1.2.3.4" = Some (Some 1303%Q) /\
  locked_until <$> account_attempts s4 !! "a@b.com" = Some (Some 1303%Q) /\
  (2605 # 2 < 1303)%Q /\
  (1303 - (2605 # 2) == 1 # 2)%Q /\
  (is_ip_locked default_config s4 "1.2.3.4" (2605 # 2) (2605 # 2)).2 = (true, Some 0) /\
  (is_account_locked default_config s4 "a@b.com" (2605 # 2) (2605 # 2)).2
    = (true, Some 0).
Proof. vm_compute. repeat split. Qed.

(** C7, amended.  For every key, [is_ip_locked] and [is_account_locked]
    (the clock not running backwards between the sweep and the check)
    - return [(False, None)] when the key has no status or its
      [locked_until] is unset (or falsy), and leave the status alone;
    - return [(True, n)] when [locked_until] is later than [now], [n]
      being [locked_until - now] cut to whole seconds
      ([0 <= n <= locked_until - now < n + 1]), and leave the status alone;
    - return [(False, None)] when [locked_until] is not later than [now],
      and in that same call either clear [locked_until] or, when the
      initial sweep finds the entry expired and idle, delete the entry. *)
Theorem lock_check_cases
    (cfg : Config) (s : BruteForceProtection) (key : string) (t_sweep now : Q) :
  (t_sweep <= now)%Q ->
  lock_check_outcome now (ip_attempts s !! key)
    (ip_attempts (is_ip_locked cfg s key t_sweep now).1 !! key)
    (is_ip_locked cfg s key t_sweep now).2 /\
  lock_check_outcome now (account_attempts s !! key)
    (account_attempts (is_account_locked cfg s key t_sweep now).1 !! key)
    (is_account_locked cfg s key t_sweep now).2.
Proof.
  intros H. split; [by apply is_ip_locked_outcome | by apply is_account_locked_outcome].
Qed.

Lemma lock_check_cases_witness :
  let s4 := fail_burst default_config [1000; 1001; 1002; 1003]%Q in
  (1400 <= 1400)%Q /\
  lock_check_outcome 1400 (ip_attempts s4 !! "1.2.3.4")
    (ip_attempts (is_ip_locked default_config s4 "1.2.3.4" 1400 1400).1 !! "1.2.3.4")
    (is_ip_locked default_config s4 "1.2.3.4" 1400 1400).2 /\
  lock_check_outcome 1400 (account_attempts s4 !! "1.2.3.4")
    (account_attempts (is_account_locked default_config s4 "1.2.3.4" 1400 1400).1
       !! "1.2.3.4")
    (is_account_locked default_config s4 "1.2.3.4" 1400 1400).2.
Proof.
  cbv zeta. assert (H : (1400 <= 1400)%Q) by apply Qle_refl.
  split; [exact H|].
  exact (lock_check_cases default_config
           (fail_burst default_config [1000; 1001; 1002; 1003]%Q)
           "1.2.3.4" 1400 1400 H).
Defined.

(** The expiry transition of the witness above, evaluated: after the lock
    of time 1303 has run out, one check returns [(False, None)] and
    clears [locked_until]. *)
Example lock_expires_on_check :
  let s4 := fail_burst default_config [1000; 1001; 1002; 1003]%Q in
  let out := is_ip_locked default_config s4 "1.2.3.4" 1400 1400 in
  out.2 = (false, None) /\
  locked_until <$> ip_attempts out.1 !! "1.2.3.4" = Some None /\
  lockout_count <$> ip_attempts out.1 !! "1.2.3.4" = Some 1%N.
Proof. vm_compute. repeat split. Qed.

(** C8.  [reset_ip] (resp. [reset_account]) deletes the key's status: the
    key is absent from the map, an immediately following lock check
    returns [(False, None)], and the next attempt for the key starts from
    a new [LockoutStatus()] whose [lockout_count] is 0, so that a lock it
    imposes lasts the base duration and brings [lockout_count] to 1. *)
Theorem reset_deletes_status
    (cfg : Config) (s : BruteForceProtection) (key : string) :
  (ip_attempts (reset_ip s key) !! key = None /\
   (forall t_sweep now : Q,
      (is_ip_locked cfg (reset_ip s key) key t_sweep now).2 = (false, None)) /\
   getitem (ip_attempts (reset_ip s key)) key = LockoutStatus_default /\
   lockout_count (getitem (ip_attempts (reset_ip s key)) key) = 0%N /\
   (forall (mail : string) (now t_ip t_acc : Q),
      let a := mkAttempt now false key mail in
      ip_attempts (record_attempt cfg (reset_ip s key) key mail false now t_ip t_acc).1
        !! key
        = Some (after_failure cfg LockoutStatus_default a now t_ip) /\
      (threshold_reached cfg (counted cfg LockoutStatus_default a now t_ip) = true ->
         locked_until (after_failure cfg LockoutStatus_default a now t_ip)
           = Some (now + inject_Z (lockout_duration cfg))%Q /\
         lockout_count (after_failure cfg LockoutStatus_default a now t_ip) = 1%N) /\
      (threshold_reached cfg (counted cfg LockoutStatus_default a now t_ip) = false ->
         lockout_count (after_failure cfg LockoutStatus_default a now t_ip) = 0%N))) /\
  (account_attempts (reset_account s key) !! key = None /\
   (forall t_sweep now : Q,
      (is_account_locked cfg (reset_account s key) key t_sweep now).2 = (false, None)) /\
   getitem (account_attempts (reset_account s key)) key = LockoutStatus_default /\
   lockout_count (getitem (account_attempts (reset_account s key)) key) = 0%N /\
   (forall (ip : string) (now t_ip t_acc : Q),
      let a := mkAttempt now false ip key in
      account_attempts
        (record_attempt cfg (reset_account s key) ip key false now t_ip t_acc).1 !! key
        = Some (after_failure cfg LockoutStatus_default a now t_acc) /\
      (threshold_reached cfg (counted cfg LockoutStatus_default a now t_acc) = true ->
         locked_until (after_failure cfg LockoutStatus_default a now t_acc)
           = Some (now + inject_Z (lockout_duration cfg))%Q /\
         lockout_count (after_failure cfg LockoutStatus_default a now t_acc) = 1%N) /\
      (threshold_reached cfg (counted cfg LockoutStatus_default a now t_acc) = false ->
         lockout_count (after_failure cfg LockoutStatus_default a now t_acc) = 0%N))).
Proof.
  assert (Hip : ip_attempts (reset_ip s key) !! key = None)
    by (simpl; apply lookup_delete_eq).
  assert (Hacc : account_attempts (reset_account s key) !! key = None)
    by (simpl; apply lookup_delete_eq).
  assert (Hfresh : forall (a : LoginAttempt) (now t : Q),
    (threshold_reached cfg (counted cfg LockoutStatus_default a now t) = true ->
       locked_until (after_failure cfg LockoutStatus_default a now t)
         = Some (now + inject_Z (lockout_duration cfg))%Q /\
       lockout_count (after_failure cfg LockoutStatus_default a now t) = 1%N) /\
    (threshold_reached cfg (counted cfg LockoutStatus_default a now t) = false ->
       lockout_count (after_failure cfg LockoutStatus_default a now t) = 0%N)).
  { intros a now t. split; intros H.
    - destruct (after_failure_fired cfg _ a now t H) as [Hlu Hcount].
      rewrite Hlu, Hcount. simpl. by rewrite calculate_first.
    - by destruct (after_failure_not_fired cfg _ a now t H) as [_ ->]. }
  split.
  - split; [exact Hip|]. split; [|split; [|split]].
    + intros t_sweep now. unfold is_ip_locked.
      destruct (cleanup_lookup_ip cfg (reset_ip s key) t_sweep key) as [E | [E _]];
        rewrite Hip in E || idtac; by rewrite (check_lock_absent _ _ _ E).
    + unfold getitem. by rewrite Hip.
    + unfold getitem. by rewrite Hip.
    + intros mail now t_ip t_acc. cbv zeta. split; [|apply Hfresh].
      rewrite record_failure_ip. unfold getitem. by rewrite Hip.
  - split; [exact Hacc|]. split; [|split; [|split]].
    + intros t_sweep now. unfold is_account_locked.
      destruct (cleanup_lookup_account cfg (reset_account s key) t_sweep key)
        as [E | [E _]];
        rewrite Hacc in E || idtac; by rewrite (check_lock_absent _ _ _ E).
    + unfold getitem. by rewrite Hacc.
    + unfold getitem. by rewrite Hacc.
    + intros ip now t_ip t_acc. cbv zeta. split; [|apply Hfresh].
      rewrite record_failure_account. unfold getitem. by rewrite Hacc.
Qed.

(** C9.  A successful attempt returns [locked = False] and, in each of the
    two statuses it touches, sets the failed-attempt counter to 0 and
    appends the new record after the stored history (besides refreshing
    the status's attempt times); [locked_until], [lockout_count] and the
    records already stored are unchanged, and so is every other key.  A
    key whose lock was running is still reported locked by the lock
    check. *)
Theorem record_attempt_success_frame
    (cfg : Config) (s : BruteForceProtection) (ip mail : string)
    (now t_ip t_acc : Q) :
  let a := mkAttempt now true ip mail in
  let old_ip := getitem (ip_attempts s) ip in
  let old_account := getitem (account_attempts s) mail in
  let out := record_attempt cfg s ip mail true now t_ip t_acc in
  out.2 = mkResult false None 0 None None /\
  (exists st, ip_attempts out.1 !! ip = Some st /\
     failed_attempts st = 0 /\ attempts st = attempts old_ip ++ [a] /\
     locked_until st = locked_until old_ip /\
     lockout_count st = lockout_count old_ip /\
     last_attempt_time st = Some now /\
     first_attempt_time st
       = (if truthy (first_attempt_time old_ip) then first_attempt_time old_ip
          else Some now)) /\
  (exists st, account_attempts out.1 !! mail = Some st /\
     failed_attempts st = 0 /\ attempts st = attempts old_account ++ [a] /\
     locked_until st = locked_until old_account /\
     lockout_count st = lockout_count old_account /\
     last_attempt_time st = Some now /\
     first_attempt_time st
       = (if truthy (first_attempt_time old_account) then first_attempt_time old_account
          else Some now)) /\
  (forall k : string, k <> ip -> ip_attempts out.1 !! k = ip_attempts s !! k) /\
  (forall k : string, k <> mail ->
     account_attempts out.1 !! k = account_attempts s !! k) /\
  (forall (st : LockoutStatus) (lu t_sweep t : Q),
     ip_attempts s !! ip = Some st -> locked_until st = Some lu ->
     ~ (lu == 0)%Q -> (t_sweep <= t)%Q -> (t < lu)%Q ->
     (is_ip_locked cfg s ip t_sweep t).2 = (true, Some (py_int (lu - t))) /\
     (is_ip_locked cfg out.1 ip t_sweep t).2 = (true, Some (py_int (lu - t)))) /\
  (forall (st : LockoutStatus) (lu t_sweep t : Q),
     account_attempts s !! mail = Some st -> locked_until st = Some lu ->
     ~ (lu == 0)%Q -> (t_sweep <= t)%Q -> (t < lu)%Q ->
     (is_account_locked cfg s mail t_sweep t).2 = (true, Some (py_int (lu - t))) /\
     (is_account_locked cfg out.1 mail t_sweep t).2 = (true, Some (py_int (lu - t)))).
Proof.
  cbv zeta. split; [reflexivity|]. split; [|split; [|split; [|split; [|split]]]].
  - eexists. split; [apply record_success_ip|]. simpl.
    repeat split. by destruct (truthy _).
  - eexists. split; [apply record_success_account|]. simpl.
    repeat split. by destruct (truthy _).
  - intros k Hk. by apply record_other_ip.
  - intros k Hk. by apply record_other_account.
  - intros st lu t_sweep t E Elu Hnz Hclock Hlt. split.
    + by apply (is_ip_locked_running cfg s ip t_sweep t st lu).
    + eapply is_ip_locked_running; [exact Hclock | apply record_success_ip | | | ];
        [|exact Hnz|exact Hlt].
      unfold getitem. rewrite E. exact Elu.
  - intros st lu t_sweep t E Elu Hnz Hclock Hlt. split.
    + by apply (is_account_locked_running cfg s mail t_sweep t st lu).
    + eapply is_account_locked_running;
        [exact Hclock | apply record_success_account | | | ];
        [|exact Hnz|exact Hlt].
      unfold getitem. rewrite E. exact Elu.
Qed.

(** C10.  The reset of the counter by a successful attempt does not last.
    After a success the counters of both keys are 0, but the next failed
    attempt for the same keys recomputes them from the pruned history:
    every failure recorded before the success and still inside the window
    is counted again, next to the new failure and the increment.  So a
    single failure after a success can lock at once: with the default
    configuration, three failures, a success and one more failure within
    five seconds end in [locked = True]. *)
Theorem success_reset_does_not_last
    (cfg : Config) (s : BruteForceProtection) (ip mail : string)
    (t_ok t_ok_ip t_ok_acc t_fail t_ip t_acc : Q) :
  let s1 := (record_attempt cfg s ip mail true t_ok t_ok_ip t_ok_acc).1 in
  let s2 := (record_attempt cfg s1 ip mail false t_fail t_ip t_acc).1 in
  let failure := mkAttempt t_fail false ip mail in
  let cutoff t := (t - inject_Z (window_duration cfg))%Q in
  failed_attempts <$> ip_attempts s1 !! ip = Some 0 /\
  failed_attempts <$> account_attempts s1 !! mail = Some 0 /\
  failed_attempts <$> ip_attempts s2 !! ip
    = Some (count_failures
              (List.filter (in_window (cutoff t_ip))
                 (attempts (getitem (ip_attempts s) ip)))
            + count_failures (List.filter (in_window (cutoff t_ip)) [failure]) + 1) /\
  failed_attempts <$> account_attempts s2 !! mail
    = Some (count_failures
              (List.filter (in_window (cutoff t_acc))
                 (attempts (getitem (account_attempts s) mail)))
            + count_failures (List.filter (in_window (cutoff t_acc)) [failure]) + 1) /\
  (let s3 := fail_burst default_config [1000; 1001; 1002]%Q in
   let ok := succeed_at default_config s3 1003 in
   let out := fail_at default_config ok.1 1004 in
   locked_until <$> ip_attempts s3 !! "1.2.3.4" = Some None /\
   failed_attempts <$> ip_attempts ok.1 !! "1.2.3.4" = Some 0 /\
   locked ok.2 = false /\
   out.2 = mkResult true (Some "both"%string) 300 (Some true) (Some true) /\
   failed_attempts <$> ip_attempts out.1 !! "1.2.3.4" = Some 5).
Proof.
  cbv zeta.
  assert (Hcount : forall (old : LockoutStatus) (t : Q),
    failed_attempts
      (after_failure cfg
         (set_failed_attempts (track old (mkAttempt t_ok true ip mail) t_ok) 0)
         (mkAttempt t_fail false ip mail) t_fail t)
    = count_failures
        (List.filter (in_window (t - inject_Z (window_duration cfg))) (attempts old))
      + count_failures
          (List.filter (in_window (t - inject_Z (window_duration cfg)))
             [mkAttempt t_fail false ip mail]) + 1).
  { intros old t.
    rewrite after_failure_failed_attempts, counted_failed_attempts, counted_attempts.
    simpl attempts. rewrite !count_failures_pruned_app.
    assert (E : count_failures
                  (List.filter (in_window (t - inject_Z (window_duration cfg)))
                     [mkAttempt t_ok true ip mail]) = 0).
    { simpl. by destruct (in_window _ _). }
    rewrite E. lia. }
  split; [by rewrite record_success_ip|].
  split; [by rewrite record_success_account|].
  split; [|split].
  - rewrite record_failure_ip. unfold getitem at 1. rewrite record_success_ip.
    simpl. f_equal. apply Hcount.
  - rewrite record_failure_account. unfold getitem at 1. rewrite record_success_account.
    simpl. f_equal. apply Hcount.
  - vm_compute. repeat split.
Qed.

(** * Further properties of the window pruner *)

Section Pruner.

Variable cfg : Config.

Lemma filter_in_window_all (c : Q) (l : list LoginAttempt) :
  Forall (fun a => (c < timestamp a)%Q) l -> List.filter (in_window c) l = l.
Proof.
  induction 1 as [|a l Ha _ IH]; [reflexivity|]. simpl.
  unfold in_window at 1. apply Qltb_lt in Ha. by rewrite Ha, IH.
Qed.

Lemma filter_in_window_later (c c' : Q) (l : list LoginAttempt) :
  (c <= c')%Q ->
  List.filter (in_window c') (List.filter (in_window c) l) = List.filter (in_window c') l.
Proof.
  intros Hc. induction l as [|a l IH]; [reflexivity|]. simpl.
  destruct (in_window c a) eqn:E; simpl; [by rewrite IH|].
  rewrite IH. destruct (in_window c' a) eqn:E'; [|reflexivity].
  exfalso. unfold in_window in *. apply Qltb_lt in E'. apply Qltb_ge in E. lra.
Qed.

Lemma count_failures_le_length (l : list LoginAttempt) :
  count_failures l <= Z.of_nat (length l).
Proof.
  unfold count_failures. apply inj_le.
  induction l as [|a l IH]; simpl; [lia|]. destruct (is_failure a); simpl; lia.
Qed.

End Pruner.

(** X2.  Pruning at [t] and then at a later time [t'] is pruning at [t']:
    an earlier pruning never changes what a later one keeps or counts.  In
    particular pruning twice at the same time is pruning once. *)
Theorem prune_then_prune_later (cfg : Config) (status : LockoutStatus) (t t' : Q) :
  (t <= t')%Q ->
  _prune_old_attempts cfg (_prune_old_attempts cfg status t) t'
  = _prune_old_attempts cfg status t'.
Proof.
  intros H. unfold _prune_old_attempts. simpl.
  rewrite filter_in_window_later by lra. reflexivity.
Qed.

Lemma prune_then_prune_later_witness :
  (1000 <= 1500)%Q /\
  let status := mkStatus 0 None None None 0
                  [mkAttempt 50 false "1.2.3.4" "a@b.com";
                   mkAttempt 700 false "1.2.3.4" "a@b.com";
                   mkAttempt 1400 true "1.2.3.4" "a@b.com"] in
  _prune_old_attempts default_config (_prune_old_attempts default_config status 1000) 1500
  = _prune_old_attempts default_config status 1500.
Proof.
  assert (H : (1000 <= 1500)%Q) by (unfold Qle; simpl; lia).
  split; [exact H|]. cbv zeta.
  exact (prune_then_prune_later default_config _ 1000 1500 H).
Defined.

(** X3.  Whatever the configuration and the count, a lockout never lasts
    longer than the larger of the base and the maximum duration, and with
    a non-negative base and maximum it never lasts less than the smaller
    of the two; the duration [record_attempt] reports is within the same
    upper bound (or is 0). *)
Theorem lockout_duration_bounds (cfg : Config) :
  (forall count : N,
     _calculate_lockout_duration cfg count
     <= Z.max (lockout_duration cfg) (max_lockout_duration cfg)) /\
  (forall count : N,
     0 <= lockout_duration cfg -> 0 <= max_lockout_duration cfg ->
     Z.min (lockout_duration cfg) (max_lockout_duration cfg)
     <= _calculate_lockout_duration cfg count) /\
  (forall (s : BruteForceProtection) (ip mail : string) (ok : bool)
          (now t_ip t_acc : Q),
     result_lockout_duration (record_attempt cfg s ip mail ok now t_ip t_acc).2
     <= Z.max 0 (Z.max (lockout_duration cfg) (max_lockout_duration cfg))).
Proof.
  assert (Hup : forall count : N,
            _calculate_lockout_duration cfg count
            <= Z.max (lockout_duration cfg) (max_lockout_duration cfg)).
  { intros count. unfold _calculate_lockout_duration.
    destruct (negb (exponential_backoff cfg) || (count =? 0)%N); lia. }
  split; [exact Hup|]. split.
  - intros count Hb Hm. unfold _calculate_lockout_duration.
    destruct (negb (exponential_backoff cfg) || (count =? 0)%N); [lia|].
    assert (1 <= 2 ^ Z.of_N count).
    { change 1 with (2 ^ 0). apply Z.pow_le_mono_r; lia. }
    apply Z.min_glb; [|lia]. etrans; [apply Z.le_min_l|]. nia.
  - intros s ip mail ok now t_ip t_acc. destruct ok; [simpl; lia|].
    pose proof (Hup (lockout_count (getitem (ip_attempts s) ip))) as H1.
    pose proof (Hup (lockout_count (getitem (account_attempts s) mail))) as H2.
    unfold record_attempt. cbv beta iota zeta delta [snd].
    destruct (threshold_reached cfg _), (threshold_reached cfg _); simpl; lia.
Qed.

(** * What a lock check reads and writes *)

Section CheckFrame.

Variable cfg : Config.

Lemma is_ip_locked_result (s : BruteForceProtection) (key : string) (t_sweep now : Q) :
  (is_ip_locked cfg s key t_sweep now).2
  = (check_lock (ip_attempts (_cleanup_old_data cfg s t_sweep)) key now).2.
Proof. unfold is_ip_locked. by destruct (check_lock _ _ _). Qed.

Lemma is_account_locked_result (s : BruteForceProtection) (key : string)
    (t_sweep now : Q) :
  (is_account_locked cfg s key t_sweep now).2
  = (check_lock (account_attempts (_cleanup_old_data cfg s t_sweep)) key now).2.
Proof. unfold is_account_locked. by destruct (check_lock _ _ _). Qed.

Lemma is_ip_locked_maps (s : BruteForceProtection) (key : string) (t_sweep now : Q) :
  ip_attempts (is_ip_locked cfg s key t_sweep now).1
    = (check_lock (ip_attempts (_cleanup_old_data cfg s t_sweep)) key now).1 /\
  account_attempts (is_ip_locked cfg s key t_sweep now).1
    = account_attempts (_cleanup_old_data cfg s t_sweep) /\
  last_cleanup (is_ip_locked cfg s key t_sweep now).1
    = last_cleanup (_cleanup_old_data cfg s t_sweep).
Proof. unfold is_ip_locked. by destruct (check_lock _ _ _). Qed.

Lemma is_account_locked_maps (s : BruteForceProtection) (key : string)
    (t_sweep now : Q) :
  account_attempts (is_account_locked cfg s key t_sweep now).1
    = (check_lock (account_attempts (_cleanup_old_data cfg s t_sweep)) key now).1 /\
  ip_attempts (is_account_locked cfg s key t_sweep now).1
    = ip_attempts (_cleanup_old_data cfg s t_sweep) /\
  last_cleanup (is_account_locked cfg s key t_sweep now).1
    = last_cleanup (_cleanup_old_data cfg s t_sweep).
Proof. unfold is_account_locked. by destruct (check_lock _ _ _). Qed.

(** The verdict of [check_lock] depends on the entry of the key alone. *)
Lemma check_lock_result_local (m m' : gmap string LockoutStatus) (key : string)
    (now : Q) :
  m !! key = m' !! key -> (check_lock m key now).2 = (check_lock m' key now).2.
Proof.
  intros H. unfold check_lock. rewrite <- H.
  destruct (m !! key) as [status|]; [|reflexivity].
  destruct (negb (truthy (locked_until status))); [reflexivity|].
  destruct (locked_until status) as [lu|]; [|reflexivity].
  by destruct (Qltb now lu).
Qed.

(** [check_lock] returns [(False, None)] or [(True, n)] with [n >= 0]. *)
Lemma check_lock_shape (m : gmap string LockoutStatus) (key : string) (now : Q) :
  (check_lock m key now).2 = (false, None) \/
  exists n : Z, (check_lock m key now).2 = (true, Some n) /\ 0 <= n.
Proof.
  unfold check_lock. destruct (m !! key) as [status|]; [|by left].
  destruct (negb (truthy (locked_until status))); [by left|].
  destruct (locked_until status) as [lu|]; [|by left].
  destruct (Qltb now lu) eqn:E; [|by left]. right.
  apply Qltb_lt in E. assert (Hpos : (0 < lu - now)%Q) by lra.
  destruct (py_int_bounds _ Hpos) as [H0 _]. eexists. by split.
Qed.

(** Every entry of the map after [check_lock] was there before, changed at
    most by a cleared [locked_until]; no entry is added or removed. *)
Lemma check_lock_kept_or_cleared (m : gmap string LockoutStatus) (key k : string)
    (now : Q) :
  kept_or_cleared (m !! k) ((check_lock m key now).1 !! k) /\
  (is_Some ((check_lock m key now).1 !! k) <-> is_Some (m !! k)).
Proof.
  unfold check_lock. destruct (m !! key) as [status|] eqn:E; simpl.
  2: { split; [|reflexivity]. unfold kept_or_cleared.
       destruct (m !! k) as [st|]; [|exact I]. exists st. split; [reflexivity | by left]. }
  assert (Hsame : kept_or_cleared (m !! k) (m !! k)).
  { unfold kept_or_cleared. destruct (m !! k) as [st|]; [|exact I].
    exists st. split; [reflexivity | by left]. }
  destruct (negb (truthy (locked_until status))); [by split|].
  destruct (locked_until status) as [lu|]; [|by split].
  destruct (Qltb now lu); [by split|]. simpl.
  destruct (decide (k = key)) as [->|Hne].
  - rewrite lookup_insert_eq, E. split.
    + exists status. split; [reflexivity | by right].
    + split; intros _; eexists; reflexivity.
  - rewrite lookup_insert_ne by congruence. by split.
Qed.

(** The sweep only removes entries. *)
Lemma cleanup_kept (s : BruteForceProtection) (now : Q) (k : string) :
  (ip_attempts (_cleanup_old_data cfg s now) !! k = None \/
   ip_attempts (_cleanup_old_data cfg s now) !! k = ip_attempts s !! k) /\
  (account_attempts (_cleanup_old_data cfg s now) !! k = None \/
   account_attempts (_cleanup_old_data cfg s now) !! k = account_attempts s !! k).
Proof.
  split.
  - destruct (cleanup_lookup_ip cfg s now k) as [H|[H _]]; [by right | by left].
  - destruct (cleanup_lookup_account cfg s now k) as [H|[H _]]; [by right | by left].
Qed.

(** What the sweep leaves under a key depends on that key's entry and on
    the time of the last sweep alone. *)
Lemma cleanup_lookup_local (s s' : BruteForceProtection) (now : Q) (k : string) :
  last_cleanup s = last_cleanup s' ->
  (ip_attempts s !! k = ip_attempts s' !! k ->
   ip_attempts (_cleanup_old_data cfg s now) !! k
   = ip_attempts (_cleanup_old_data cfg s' now) !! k) /\
  (account_attempts s !! k = account_attempts s' !! k ->
   account_attempts (_cleanup_old_data cfg s now) !! k
   = account_attempts (_cleanup_old_data cfg s' now) !! k).
Proof.
  intros Hlc. unfold _cleanup_old_data. rewrite <- Hlc.
  destruct (Qltb _ _); simpl; [by split|].
  rewrite !sweep_lookup. split; by intros ->.
Qed.

Lemma kept_or_cleared_trans (a b c : option LockoutStatus) :
  kept_or_cleared a b -> kept_or_cleared b c -> kept_or_cleared a c.
Proof.
  unfold kept_or_cleared. destruct c as [st''|]; [|done].
  intros Hab (st' & -> & Hc). destruct Hab as (st & -> & Hb).
  exists st. split; [reflexivity|].
  destruct Hb as [->| ->], Hc as [->| ->]; auto.
Qed.

Lemma kept_or_cleared_swept (before after : option LockoutStatus) :
  after = None \/ after = before -> kept_or_cleared before after.
Proof.
  intros [->| ->]; [exact I|]. unfold kept_or_cleared.
  destruct before as [st|]; [|exact I]. exists st. split; [reflexivity | by left].
Qed.

(** A lock check only removes entries or clears their lock. *)
Lemma lock_check_kept (s : BruteForceProtection) (key k : string) (t_sweep now : Q) :
  kept_or_cleared (ip_attempts s !! k)
    (ip_attempts (is_ip_locked cfg s key t_sweep now).1 !! k) /\
  kept_or_cleared (account_attempts s !! k)
    (account_attempts (is_ip_locked cfg s key t_sweep now).1 !! k) /\
  kept_or_cleared (ip_attempts s !! k)
    (ip_attempts (is_account_locked cfg s key t_sweep now).1 !! k) /\
  kept_or_cleared (account_attempts s !! k)
    (account_attempts (is_account_locked cfg s key t_sweep now).1 !! k).
Proof.
  destruct (is_ip_locked_maps s key t_sweep now) as (-> & -> & _).
  destruct (is_account_locked_maps s key t_sweep now) as (-> & -> & _).
  destruct (cleanup_kept s t_sweep k) as [Hi Ha].
  split; [|split; [|split]].
  - eapply kept_or_cleared_trans; [by apply kept_or_cleared_swept|].
    apply check_lock_kept_or_cleared.
  - by apply kept_or_cleared_swept.
  - by apply kept_or_cleared_swept.
  - eapply kept_or_cleared_trans; [by apply kept_or_cleared_swept|].
    apply check_lock_kept_or_cleared.
Qed.

End CheckFrame.

(** The verdict of a lock check is that of the check on the unswept maps. *)
Lemma lock_check_verdict_unswept
    (cfg : Config) (s : BruteForceProtection) (key : string) (t_sweep now : Q) :
  (t_sweep <= now)%Q ->
  (is_ip_locked cfg s key t_sweep now).2 = (check_lock (ip_attempts s) key now).2 /\
  (is_account_locked cfg s key t_sweep now).2
    = (check_lock (account_attempts s) key now).2.
Proof.
  intros Hclock.
  assert (Hexp : forall (m : gmap string LockoutStatus) (status : LockoutStatus),
            m !! key = Some status -> expired_and_idle cfg t_sweep status ->
            (check_lock m key now).2 = (false, None)).
  { intros m status E [(lu & Elu & Hnz & Hlt) _]. unfold check_lock.
    rewrite E, Elu. apply truthy_Some in Hnz. rewrite Hnz. simpl.
    assert (Hge : Qltb now lu = false) by (apply Qltb_ge; lra). by rewrite Hge. }
  split.
  - rewrite is_ip_locked_result.
    destruct (cleanup_lookup_ip cfg s t_sweep key) as [H | (H & st & Hst & Hx)].
    + by apply check_lock_result_local.
    + rewrite (check_lock_absent _ _ _ H). simpl. symmetry. by apply (Hexp _ st).
  - rewrite is_account_locked_result.
    destruct (cleanup_lookup_account cfg s t_sweep key) as [H | (H & st & Hst & Hx)].
    + by apply check_lock_result_local.
    + rewrite (check_lock_absent _ _ _ H). simpl. symmetry. by apply (Hexp _ st).
Qed.

(** X4.  The sweep that opens a lock check never changes the verdict:
    with a clock that does not run backwards, [is_ip_locked] and
    [is_account_locked] return what the check alone returns on the maps as
    they were before the sweep.  An entry the sweep removes had an expired
    lock, for which the check returns [(False, None)] anyway. *)
Theorem sweep_does_not_change_verdict
    (cfg : Config) (s : BruteForceProtection) (key : string) (t_sweep now : Q) :
  (t_sweep <= now)%Q ->
  (is_ip_locked cfg s key t_sweep now).2 = (check_lock (ip_attempts s) key now).2 /\
  (is_account_locked cfg s key t_sweep now).2
    = (check_lock (account_attempts s) key now).2.
Proof. apply lock_check_verdict_unswept. Qed.

Lemma sweep_does_not_change_verdict_witness :
  let s4 := fail_burst default_config [1000; 1001; 1002; 1003]%Q in
  (9000 <= 9001)%Q /\
  (is_ip_locked default_config s4 "1.2.3.4" 9000 9001).2
    = (check_lock (ip_attempts s4) "1.2.3.4" 9001).2 /\
  (is_account_locked default_config s4 "1.2.3.4" 9000 9001).2
    = (check_lock (account_attempts s4) "1.2.3.4" 9001).2.
Proof.
  cbv zeta. assert (H : (9000 <= 9001)%Q) by (unfold Qle; simpl; lia).
  split; [exact H|].
  exact (sweep_does_not_change_verdict default_config
           (fail_burst default_config [1000; 1001; 1002; 1003]%Q)
           "1.2.3.4" 9000 9001 H).
Defined.

(** X5.  A lock check returns [(False, None)] or [(True, n)] with
    [n >= 0], never a lock without a remaining time or the reverse.  It
    writes nothing but a cleared [locked_until] (and what its sweep
    deletes): in both maps every entry present afterwards was present
    before with the same counter, history, attempt times and
    [lockout_count], and no entry is created for a key that is looked
    up. *)
Theorem lock_check_reads_only
    (cfg : Config) (s : BruteForceProtection) (key : string) (t_sweep now : Q) :
  let out_ip := is_ip_locked cfg s key t_sweep now in
  let out_account := is_account_locked cfg s key t_sweep now in
  (out_ip.2 = (false, None) \/ exists n : Z, out_ip.2 = (true, Some n) /\ 0 <= n) /\
  (out_account.2 = (false, None) \/
   exists n : Z, out_account.2 = (true, Some n) /\ 0 <= n) /\
  (forall k : string,
     kept_or_cleared (ip_attempts s !! k) (ip_attempts out_ip.1 !! k) /\
     kept_or_cleared (account_attempts s !! k) (account_attempts out_ip.1 !! k) /\
     kept_or_cleared (ip_attempts s !! k) (ip_attempts out_account.1 !! k) /\
     kept_or_cleared (account_attempts s !! k) (account_attempts out_account.1 !! k)).
Proof.
  cbv zeta. split; [|split].
  - rewrite is_ip_locked_result. apply check_lock_shape.
  - rewrite is_account_locked_result. apply check_lock_shape.
  - intros k. apply lock_check_kept.
Qed.

(** X6.  [record_attempt] for [ip] and [mail], successful or not, creates
    or updates the entries of those two keys and touches nothing else:
    afterwards both keys are present with [last_attempt_time] the time of
    the call, every other key of either map has the entry it had, the
    time of the last sweep is the same, and the lock checks of every
    other address and account return what they returned before. *)
Theorem record_attempt_touches_two_keys
    (cfg : Config) (s : BruteForceProtection) (ip mail : string) (ok : bool)
    (now t_ip t_acc : Q) :
  let s' := (record_attempt cfg s ip mail ok now t_ip t_acc).1 in
  last_attempt_time <$> ip_attempts s' !! ip = Some (Some now) /\
  last_attempt_time <$> account_attempts s' !! mail = Some (Some now) /\
  dom (ip_attempts s') = {[ip]} ∪ dom (ip_attempts s) /\
  dom (account_attempts s') = {[mail]} ∪ dom (account_attempts s) /\
  last_cleanup s' = last_cleanup s /\
  (forall k : string, k <> ip ->
     ip_attempts s' !! k = ip_attempts s !! k /\
     forall t_sweep t : Q,
       (is_ip_locked cfg s' k t_sweep t).2 = (is_ip_locked cfg s k t_sweep t).2) /\
  (forall k : string, k <> mail ->
     account_attempts s' !! k = account_attempts s !! k /\
     forall t_sweep t : Q,
       (is_account_locked cfg s' k t_sweep t).2
       = (is_account_locked cfg s k t_sweep t).2).
Proof.
  cbv zeta.
  pose proof (record_last_cleanup cfg s ip mail now t_ip t_acc ok) as Hlc.
  split; [|split; [|split; [|split; [|split; [exact Hlc|split]]]]].
  - destruct ok; [by rewrite record_success_ip|].
    rewrite record_failure_ip. unfold after_failure.
    by destruct (threshold_reached _ _).
  - destruct ok; [by rewrite record_success_account|].
    rewrite record_failure_account. unfold after_failure.
    by destruct (threshold_reached _ _).
  - destruct ok; simpl; by rewrite dom_insert_L.
  - destruct ok; simpl; by rewrite dom_insert_L.
  - intros k Hk.
    pose proof (record_other_ip cfg s ip mail now t_ip t_acc ok k Hk) as Hsame.
    split; [exact Hsame|]. intros t_sweep t. rewrite !is_ip_locked_result.
    apply check_lock_result_local.
    by apply (cleanup_lookup_local cfg _ s t_sweep k Hlc).
  - intros k Hk.
    pose proof (record_other_account cfg s ip mail now t_ip t_acc ok k Hk) as Hsame.
    split; [exact Hsame|]. intros t_sweep t. rewrite !is_account_locked_result.
    apply check_lock_result_local.
    by apply (cleanup_lookup_local cfg _ s t_sweep k Hlc).
Qed.

(** X7.  [reset_ip] on an address that has no entry changes nothing, and
    resetting twice is resetting once.  It leaves every other address and
    the whole account map as they were, so a lock on the account survives
    the reset of the address: its lock check returns what it returned
    before.  [reset_account] is the mirror image. *)
Theorem reset_touches_one_key
    (cfg : Config) (s : BruteForceProtection) (key : string) :
  (ip_attempts s !! key = None -> reset_ip s key = s) /\
  (account_attempts s !! key = None -> reset_account s key = s) /\
  reset_ip (reset_ip s key) key = reset_ip s key /\
  reset_account (reset_account s key) key = reset_account s key /\
  (forall k : string, k <> key -> ip_attempts (reset_ip s key) !! k = ip_attempts s !! k) /\
  (forall k : string, k <> key ->
     account_attempts (reset_account s key) !! k = account_attempts s !! k) /\
  account_attempts (reset_ip s key) = account_attempts s /\
  ip_attempts (reset_account s key) = ip_attempts s /\
  (forall (k : string) (t_sweep t : Q),
     (is_account_locked cfg (reset_ip s key) k t_sweep t).2
     = (is_account_locked cfg s k t_sweep t).2) /\
  (forall (k : string) (t_sweep t : Q),
     (is_ip_locked cfg (reset_account s key) k t_sweep t).2
     = (is_ip_locked cfg s k t_sweep t).2).
Proof.
  split; [|split; [|split; [|split; [|split; [|split; [|split; [|split; [|split]]]]]]]].
  - intros H. unfold reset_ip. rewrite delete_id by exact H. by destruct s.
  - intros H. unfold reset_account. rewrite delete_id by exact H. by destruct s.
  - unfold reset_ip. simpl. by rewrite delete_delete_eq.
  - unfold reset_account. simpl. by rewrite delete_delete_eq.
  - intros k Hk. simpl. by rewrite lookup_delete_ne.
  - intros k Hk. simpl. by rewrite lookup_delete_ne.
  - reflexivity.
  - reflexivity.
  - intros k t_sweep t. rewrite !is_account_locked_result.
    apply check_lock_result_local.
    by apply (cleanup_lookup_local cfg (reset_ip s key) s t_sweep k).
  - intros k t_sweep t. rewrite !is_ip_locked_result.
    apply check_lock_result_local.
    by apply (cleanup_lookup_local cfg (reset_account s key) s t_sweep k).
Qed.

(** * The status report *)

Section Report.

Variable cfg : Config.

(** The engine after the address half of [get_status]. *)
Lemma get_status_ip_half (s : BruteForceProtection) (ip_address mail : option string)
    (t1 t2 t3 t4 : Q) :
  exists s1 : BruteForceProtection,
    (s1 = s \/ exists ip, given ip_address = Some ip /\
                          s1 = (is_ip_locked cfg s ip t1 t2).1) /\
    ((get_status cfg s ip_address mail t1 t2 t3 t4).1 = s1 \/
     exists key, given mail = Some key /\
       (get_status cfg s ip_address mail t1 t2 t3 t4).1
       = (is_account_locked cfg s1 key t3 t4).1) /\
    report_account (get_status cfg s ip_address mail t1 t2 t3 t4).2
    = match given mail with
      | Some key =>
          match account_attempts s1 !! key with
          | Some st =>
              Some (mkInfo (failed_attempts st)
                      (is_account_locked cfg s1 key t3 t4).2.1
                      (is_account_locked cfg s1 key t3 t4).2.2 (lockout_count st))
          | None => None
          end
      | None => None
      end.
Proof.
  unfold get_status.
  destruct (given ip_address) as [ip|]; [destruct (ip_attempts s !! ip) as [st|]|].
  - exists (is_ip_locked cfg s ip t1 t2).1. cbv zeta. simpl.
    split; [right; by exists ip|].
    destruct (given mail) as [key|]; [|by split; [left|]].
    destruct (account_attempts _ !! key); simpl; split; try reflexivity;
      [right; by exists key | by left].
  - exists s. cbv zeta. simpl. split; [by left|].
    destruct (given mail) as [key|]; [|by split; [left|]].
    destruct (account_attempts _ !! key); simpl; split; try reflexivity;
      [right; by exists key | by left].
  - exists s. cbv zeta. simpl. split; [by left|].
    destruct (given mail) as [key|]; [|by split; [left|]].
    destruct (account_attempts _ !! key); simpl; split; try reflexivity;
      [right; by exists key | by left].
Qed.

Lemma get_status_report_ip (s : BruteForceProtection) (ip_address mail : option string)
    (t1 t2 t3 t4 : Q) :
  report_ip (get_status cfg s ip_address mail t1 t2 t3 t4).2
  = match given ip_address with
    | Some ip =>
        match ip_attempts s !! ip with
        | Some st =>
            Some (mkInfo (failed_attempts st) (is_ip_locked cfg s ip t1 t2).2.1
                    (is_ip_locked cfg s ip t1 t2).2.2 (lockout_count st))
        | None => None
        end
    | None => None
    end.
Proof.
  unfold get_status.
  destruct (given ip_address) as [ip|]; [destruct (ip_attempts s !! ip)|]; reflexivity.
Qed.

Lemma kept_or_cleared_refl (a : option LockoutStatus) : kept_or_cleared a a.
Proof. apply kept_or_cleared_swept. by right. Qed.

(** [get_status] as its two halves, the second run on the engine the first
    leaves. *)
Lemma get_status_unfold (s : BruteForceProtection) (ip_address mail : option string)
    (t1 t2 t3 t4 : Q) :
  let s1 := match given ip_address with
            | Some ip =>
                match ip_attempts s !! ip with
                | Some _ => (is_ip_locked cfg s ip t1 t2).1
                | None => s
                end
            | None => s
            end in
  (get_status cfg s ip_address mail t1 t2 t3 t4).1
  = match given mail with
    | Some key =>
        match account_attempts s1 !! key with
        | Some _ => (is_account_locked cfg s1 key t3 t4).1
        | None => s1
        end
    | None => s1
    end.
Proof.
  unfold get_status. cbv zeta.
  destruct (given ip_address) as [ip|]; [destruct (ip_attempts s !! ip)|]; simpl;
    (destruct (given mail) as [key|]; [|reflexivity]);
    by destruct (account_attempts _ !! key).
Qed.

End Report.

(** X8.  [get_status] writes nothing but what its lock checks write: in
    both maps every entry present afterwards was present before with the
    same counter, history, attempt times and [lockout_count], its
    [locked_until] being the same or cleared; no entry is created. *)
Theorem get_status_reads_only
    (cfg : Config) (s : BruteForceProtection) (ip_address mail : option string)
    (t1 t2 t3 t4 : Q) (k : string) :
  let s' := (get_status cfg s ip_address mail t1 t2 t3 t4).1 in
  kept_or_cleared (ip_attempts s !! k) (ip_attempts s' !! k) /\
  kept_or_cleared (account_attempts s !! k) (account_attempts s' !! k).
Proof.
  cbv zeta.
  destruct (get_status_ip_half cfg s ip_address mail t1 t2 t3 t4)
    as (s1 & Hs1 & Hs' & _).
  assert (H1 : kept_or_cleared (ip_attempts s !! k) (ip_attempts s1 !! k) /\
               kept_or_cleared (account_attempts s !! k) (account_attempts s1 !! k)).
  { destruct Hs1 as [->|(ip & _ & ->)]; [split; apply kept_or_cleared_refl|].
    destruct (lock_check_kept cfg s ip k t1 t2) as (Ha & Hb & _). by split. }
  destruct H1 as [Hi Ha]. destruct Hs' as [->|(key & _ & ->)]; [by split|].
  destruct (lock_check_kept cfg s1 key k t3 t4) as (_ & _ & Hc & Hd).
  split; eapply kept_or_cleared_trans; eauto.
Qed.

(** X9.  [get_status] without arguments, with empty strings, or for keys
    that have no entry returns the empty dictionary and leaves the engine
    exactly as it was: no lock check is called, so not even the sweep
    runs. *)
Theorem get_status_unknown_keys
    (cfg : Config) (s : BruteForceProtection) (ip_address mail : option string)
    (t1 t2 t3 t4 : Q) :
  (forall ip : string, given ip_address = Some ip -> ip_attempts s !! ip = None) ->
  (forall key : string, given mail = Some key -> account_attempts s !! key = None) ->
  get_status cfg s ip_address mail t1 t2 t3 t4 = (s, mkReport None None).
Proof.
  intros Hip Hmail. unfold get_status.
  destruct (given ip_address) as [ip|].
  - rewrite (Hip ip eq_refl). cbv zeta. simpl.
    destruct (given mail) as [key|]; [|reflexivity]. by rewrite (Hmail key eq_refl).
  - cbv zeta. simpl.
    destruct (given mail) as [key|]; [|reflexivity]. by rewrite (Hmail key eq_refl).
Qed.

Lemma get_status_unknown_keys_witness :
  let s4 := fail_burst default_config [1000; 1001; 1002; 1003]%Q in
  get_status default_config s4 (Some ""%string) (Some "nobody@b.com"%string)
    9000 9000 9000 9000
  = (s4, mkReport None None).
Proof.
  cbv zeta. apply get_status_unknown_keys.
  - intros ip H. discriminate H.
  - intros key H. injection H as <-. vm_compute. reflexivity.
Defined.

(** X10.  Each entry of the report shows the counter and [lockout_count]
    stored for a key that was given and has an entry, next to the verdict
    of the lock check on that stored entry (clocks not running backwards);
    and the address is reported whenever it is given and has an entry. *)
Theorem get_status_reports_stored_values
    (cfg : Config) (s : BruteForceProtection) (ip_address mail : option string)
    (t1 t2 t3 t4 : Q) :
  (t1 <= t2)%Q -> (t3 <= t4)%Q ->
  let report := (get_status cfg s ip_address mail t1 t2 t3 t4).2 in
  (forall info : StatusInfo, report_ip report = Some info ->
     exists (ip : string) (st : LockoutStatus),
       given ip_address = Some ip /\ ip_attempts s !! ip = Some st /\
       info = mkInfo (failed_attempts st) (check_lock (ip_attempts s) ip t2).2.1
                (check_lock (ip_attempts s) ip t2).2.2 (lockout_count st)) /\
  (forall info : StatusInfo, report_account report = Some info ->
     exists (key : string) (st : LockoutStatus),
       given mail = Some key /\ account_attempts s !! key = Some st /\
       info = mkInfo (failed_attempts st) (check_lock (account_attempts s) key t4).2.1
                (check_lock (account_attempts s) key t4).2.2 (lockout_count st)) /\
  (forall (ip : string) (st : LockoutStatus),
     given ip_address = Some ip -> ip_attempts s !! ip = Some st ->
     is_Some (report_ip report)).
Proof.
  intros H12 H34. cbv zeta. split; [|split].
  - intros info. rewrite get_status_report_ip.
    destruct (given ip_address) as [ip|]; [|discriminate].
    destruct (ip_attempts s !! ip) as [st|] eqn:E; [|discriminate].
    intros [= <-]. exists ip, st. split; [reflexivity|]. split; [exact E|].
    destruct (lock_check_verdict_unswept cfg s ip t1 t2 H12) as [-> _].
    reflexivity.
  - intros info.
    destruct (get_status_ip_half cfg s ip_address mail t1 t2 t3 t4)
      as (s1 & Hs1 & _ & ->).
    destruct (given mail) as [key|]; [|discriminate].
    destruct (account_attempts s1 !! key) as [st|] eqn:E; [|discriminate].
    intros [= <-]. exists key, st. split; [reflexivity|].
    assert (Hsame : account_attempts s !! key = Some st).
    { destruct Hs1 as [->|(ip & _ & ->)]; [exact E|].
      destruct (is_ip_locked_maps cfg s ip t1 t2) as (_ & Hacc & _).
      rewrite Hacc in E.
      destruct (cleanup_kept cfg s t1 key) as [_ [H|H]]; congruence. }
    split; [exact Hsame|].
    destruct (lock_check_verdict_unswept cfg s1 key t3 t4 H34) as [_ ->].
    rewrite (check_lock_result_local (account_attempts s1) (account_attempts s) key t4)
      by congruence.
    reflexivity.
  - intros ip st Hg E. rewrite get_status_report_ip, Hg, E. by eexists.
Qed.

Lemma get_status_reports_stored_values_witness :
  let s4 := fail_burst default_config [1000; 1001; 1002; 1003]%Q in
  (1100 <= 1100)%Q /\
  is_Some (report_ip (get_status default_config s4 (Some "1.2.3.4"%string)
                        (Some "a@b.com"%string) 1100 1100 1100 1100).2).
Proof.
  cbv zeta. assert (H : (1100 <= 1100)%Q) by apply Qle_refl.
  split; [exact H|].
  destruct (get_status_reports_stored_values default_config
              (fail_burst default_config [1000; 1001; 1002; 1003]%Q)
              (Some "1.2.3.4"%string) (Some "a@b.com"%string)
              1100 1100 1100 1100 H H) as (_ & _ & H3).
  eapply H3; [reflexivity | vm_compute; reflexivity].
Defined.

(** X11.  The call of [get_status] whose sweep deletes the entry of the
    address still reports that address, unlocked and with the counter and
    [lockout_count] of the deleted entry, because the status was looked up
    before the sweep ran; the entry is gone afterwards, and the next
    [get_status] for the address reports nothing. *)
Theorem get_status_reports_swept_entry
    (cfg : Config) (s : BruteForceProtection) (ip_address mail : option string)
    (ip : string) (st : LockoutStatus) (t1 t2 t3 t4 : Q) :
  given ip_address = Some ip -> ip_attempts s !! ip = Some st ->
  expired_and_idle cfg t1 st ->
  (inject_Z (cleanup_interval cfg) <= t1 - last_cleanup s)%Q ->
  let out := get_status cfg s ip_address mail t1 t2 t3 t4 in
  report_ip out.2 = Some (mkInfo (failed_attempts st) false None (lockout_count st)) /\
  ip_attempts out.1 !! ip = None /\
  forall (mail' : option string) (u1 u2 u3 u4 : Q),
    report_ip (get_status cfg out.1 ip_address mail' u1 u2 u3 u4).2 = None.
Proof.
  intros Hg E Hx Hint. cbv zeta.
  assert (Hgone : ip_attempts (_cleanup_old_data cfg s t1) !! ip = None).
  { rewrite (cleanup_runs cfg s t1 Hint). simpl. rewrite sweep_lookup, E.
    apply sweepable_true in Hx. by rewrite Hx. }
  assert (Hres : (is_ip_locked cfg s ip t1 t2).2 = (false, None)).
  { rewrite is_ip_locked_result. by rewrite (check_lock_absent _ _ _ Hgone). }
  assert (H1 : ip_attempts (is_ip_locked cfg s ip t1 t2).1 !! ip = None).
  { destruct (is_ip_locked_maps cfg s ip t1 t2) as (-> & _ & _).
    by rewrite (check_lock_absent _ _ _ Hgone). }
  assert (Hafter : ip_attempts (get_status cfg s ip_address mail t1 t2 t3 t4).1 !! ip
                   = None).
  { rewrite get_status_unfold. cbv zeta. rewrite Hg, E.
    destruct (given mail) as [key|]; [|exact H1].
    destruct (account_attempts _ !! key); [|exact H1].
    destruct (is_account_locked_maps cfg (is_ip_locked cfg s ip t1 t2).1 key t3 t4)
      as (_ & -> & _).
    destruct (cleanup_kept cfg (is_ip_locked cfg s ip t1 t2).1 t3 ip) as [[H|H] _];
      congruence. }
  split; [|split; [exact Hafter|]].
  - rewrite get_status_report_ip, Hg, E, Hres. reflexivity.
  - intros mail' u1 u2 u3 u4. by rewrite get_status_report_ip, Hg, Hafter.
Qed.

Lemma get_status_reports_swept_entry_witness :
  let s4 := fail_burst default_config [1000; 1001; 1002; 1003]%Q in
  let out := get_status default_config s4 (Some "1.2.3.4"%string) None
               9000 9000 9000 9000 in
  (inject_Z (cleanup_interval default_config) <= 9000 - last_cleanup s4)%Q /\
  report_ip out.2 = Some (mkInfo 5 false None 1) /\
  ip_attempts out.1 !! "1.2.3.4" = None.
Proof.
  cbv zeta.
  assert (Hint : (inject_Z (cleanup_interval default_config)
                  <= 9000 - last_cleanup
                              (fail_burst default_config [1000; 1001; 1002; 1003]%Q))%Q)
    by (vm_compute; discriminate).
  split; [exact Hint|].
  assert (E : ip_attempts (fail_burst default_config [1000; 1001; 1002; 1003]%Q)
                !! "1.2.3.4"
              = Some (mkStatus 5 (Some 1000%Q) (Some 1003%Q) (Some 1303%Q) 1
                        [mkAttempt 1000 false "1.2.3.4" "a@b.com";
                         mkAttempt 1001 false "1.2.3.4" "a@b.com";
                         mkAttempt 1002 false "1.2.3.4" "a@b.com";
                         mkAttempt 1003 false "1.2.3.4" "a@b.com"]))
    by (vm_compute; reflexivity).
  destruct (get_status_reports_swept_entry default_config _ (Some "1.2.3.4"%string)
              None "1.2.3.4" _ 9000 9000 9000 9000 eq_refl E) as (H1 & H2 & _).
  - apply sweepable_true. vm_compute. reflexivity.
  - exact Hint.
  - split; [exact H1 | exact H2].
Defined.

(** * Locks across consecutive calls *)

Section Consecutive.

Variable cfg : Config.

(** A second failure while all the history of the first is still in the
    window reaches the threshold again. *)
Lemma threshold_reached_again (old : LockoutStatus) (a a' : LoginAttempt)
    (now t now' t' : Q) :
  threshold_reached cfg (counted cfg old a now t) = true ->
  (t <= t')%Q ->
  Forall (fun x => (t' - inject_Z (window_duration cfg) < timestamp x)%Q)
         (attempts old ++ [a]) ->
  threshold_reached cfg (counted cfg (after_failure cfg old a now t) a' now' t') = true.
Proof.
  intros Hfired Hclock Hall. unfold threshold_reached in *.
  apply Z.leb_le in Hfired. apply Z.leb_le.
  rewrite counted_failed_attempts, counted_attempts in *.
  rewrite after_failure_attempts, counted_attempts.
  assert (E1 : List.filter (in_window (t - inject_Z (window_duration cfg)))
                 (attempts old ++ [a]) = attempts old ++ [a]).
  { apply filter_in_window_all. eapply Forall_impl; [exact Hall|].
    intros x Hx. simpl in Hx. lra. }
  rewrite E1 in *. rewrite List.filter_app, count_failures_app.
  rewrite (filter_in_window_all _ _ Hall).
  pose proof (count_failures_nonneg
                (List.filter (in_window (t' - inject_Z (window_duration cfg))) [a'])).
  lia.
Qed.

End Consecutive.



(** X13.  Failures go on counting while a key is locked: if a failed
    attempt locks the address and a second failed attempt for the same
    address and account follows while the whole history is still inside
    the window, the second one locks again, for the next duration of the
    backoff schedule, and [lockout_count] has grown by two.  The same
    holds for the account. *)
Theorem failure_during_lockout_escalates
    (cfg : Config) (s : BruteForceProtection) (ip mail : string)
    (now t_ip t_acc now' t_ip' t_acc' : Q) :
  let a := mkAttempt now false ip mail in
  let old_ip := getitem (ip_attempts s) ip in
  let old_account := getitem (account_attempts s) mail in
  let out := record_attempt cfg s ip mail false now t_ip t_acc in
  let out' := record_attempt cfg out.1 ip mail false now' t_ip' t_acc' in
  (ip_locked out.2 = Some true -> (t_ip <= t_ip')%Q ->
   Forall (fun x => (t_ip' - inject_Z (window_duration cfg) < timestamp x)%Q)
          (attempts old_ip ++ [a]) ->
   ip_locked out'.2 = Some true /\
   lockout_count <$> ip_attempts out'.1 !! ip = Some (lockout_count old_ip + 2)%N /\
   locked_until <$> ip_attempts out'.1 !! ip
     = Some (Some (now' + inject_Z (_calculate_lockout_duration cfg
                                      (lockout_count old_ip + 1)))%Q)) /\
  (account_locked out.2 = Some true -> (t_acc <= t_acc')%Q ->
   Forall (fun x => (t_acc' - inject_Z (window_duration cfg) < timestamp x)%Q)
          (attempts old_account ++ [a]) ->
   account_locked out'.2 = Some true /\
   lockout_count <$> account_attempts out'.1 !! mail
     = Some (lockout_count old_account + 2)%N /\
   locked_until <$> account_attempts out'.1 !! mail
     = Some (Some (now' + inject_Z (_calculate_lockout_duration cfg
                                      (lockout_count old_account + 1)))%Q)).
Proof.
  cbv zeta. split.
  - intros Hfired Hclock Hall.
    destruct (record_failure_flags cfg s ip mail now t_ip t_acc) as [Hflag _].
    cbv zeta in Hflag. rewrite Hflag in Hfired. injection Hfired as Hfired.
    pose proof (record_failure_ip cfg s ip mail now t_ip t_acc) as E.
    destruct (after_failure_fired cfg _ _ _ _ Hfired) as [_ Hcount].
    pose proof (threshold_reached_again cfg _ _ (mkAttempt now' false ip mail)
                  now t_ip now' t_ip' Hfired Hclock Hall) as Hagain.
    destruct (record_failure_flags cfg
                (record_attempt cfg s ip mail false now t_ip t_acc).1
                ip mail now' t_ip' t_acc') as [Hflag' _].
    cbv zeta in Hflag'.
    destruct (record_failure_imposed_ip cfg
                (record_attempt cfg s ip mail false now t_ip t_acc).1
                ip mail now' t_ip' t_acc') as [Himp _].
    cbv zeta in Himp.
    assert (Hget : getitem (ip_attempts (record_attempt cfg s ip mail false now t_ip t_acc).1)
                     ip
                   = after_failure cfg (getitem (ip_attempts s) ip)
                       (mkAttempt now false ip mail) now t_ip)
      by (unfold getitem at 1; by rewrite E).
    rewrite Hget in Hflag', Himp.
    rewrite Hagain in Hflag'. split; [exact Hflag'|].
    destruct (Himp Hflag') as [Hlu Hc]. rewrite Hc, Hlu, Hcount.
    split; [f_equal; lia | reflexivity].
  - intros Hfired Hclock Hall.
    destruct (record_failure_flags cfg s ip mail now t_ip t_acc) as [_ Hflag].
    cbv zeta in Hflag. rewrite Hflag in Hfired. injection Hfired as Hfired.
    pose proof (record_failure_account cfg s ip mail now t_ip t_acc) as E.
    destruct (after_failure_fired cfg _ _ _ _ Hfired) as [_ Hcount].
    pose proof (threshold_reached_again cfg _ _ (mkAttempt now' false ip mail)
                  now t_acc now' t_acc' Hfired Hclock Hall) as Hagain.
    destruct (record_failure_flags cfg
                (record_attempt cfg s ip mail false now t_ip t_acc).1
                ip mail now' t_ip' t_acc') as [_ Hflag'].
    cbv zeta in Hflag'.
    destruct (record_failure_imposed_account cfg
                (record_attempt cfg s ip mail false now t_ip t_acc).1
                ip mail now' t_ip' t_acc') as [Himp _].
    cbv zeta in Himp.
    assert (Hget : getitem
                     (account_attempts (record_attempt cfg s ip mail false now t_ip t_acc).1)
                     mail
                   = after_failure cfg (getitem (account_attempts s) mail)
                       (mkAttempt now false ip mail) now t_acc)
      by (unfold getitem at 1; by rewrite E).
    rewrite Hget in Hflag', Himp.
    rewrite Hagain in Hflag'. split; [exact Hflag'|].
    destruct (Himp Hflag') as [Hlu Hc]. rewrite Hc, Hlu, Hcount.
    split; [f_equal; lia | reflexivity].
Qed.

Lemma failure_during_lockout_escalates_witness :
  let s3 := fail_burst default_config [1000; 1001; 1002]%Q in
  let out := record_attempt default_config s3 "1.2.3.4" "a@b.com" false 1003 1003 1003 in
  let out' :=
    record_attempt default_config out.1 "1.2.3.4" "a@b.com" false 1004 1004 1004 in
  (ip_locked out.2 = Some true /\ (1003 <= 1004)%Q) /\
  ip_locked out'.2 = Some true /\
  lockout_count <$> ip_attempts out'.1 !! "1.2.3.4" = Some 2%N.
Proof.
  cbv zeta.
  assert (H1 : ip_locked (record_attempt default_config
                            (fail_burst default_config [1000; 1001; 1002]%Q)
                            "1.2.3.4" "a@b.com" false 1003 1003 1003).2 = Some true)
    by (vm_compute; reflexivity).
  assert (H2 : (1003 <= 1004)%Q) by (unfold Qle; simpl; lia).
  split; [by split|].
  destruct (failure_during_lockout_escalates default_config
              (fail_burst default_config [1000; 1001; 1002]%Q)
              "1.2.3.4" "a@b.com" 1003 1003 1003 1004 1004 1004) as [H _].
  destruct (H H1 H2) as (Ha & Hb & _).
  - vm_compute. repeat (constructor; [reflexivity|]). constructor.
  - split; [exact Ha|]. rewrite Hb. vm_compute. reflexivity.
Defined.

(** * Bursts of failures on a new key *)

Section Burst.

Variable cfg : Config.
Variables ip mail : string.

Lemma count_failures_all (l : list LoginAttempt) :
  Forall (fun a => is_failure a = true) l -> count_failures l = Z.of_nat (length l).
Proof.
  unfold count_failures. induction 1 as [|a l Ha _ IH]; [reflexivity|].
  simpl. rewrite Ha. simpl length. lia.
Qed.

Lemma after_failures_burst (times : list Q) :
  forall st : LockoutStatus,
    Forall (fun a => Forall (fun t => (t - inject_Z (window_duration cfg)
                                       < timestamp a)%Q) times) (attempts st) ->
    (forall t t' : Q, t ∈ times -> t' ∈ times ->
                      (t' - inject_Z (window_duration cfg) < t)%Q) ->
    Forall (fun a => is_failure a = true) (attempts st) ->
    attempts (after_failures cfg st ip mail times)
      = attempts st ++ map (fun t => mkAttempt t false ip mail) times /\
    (times <> [] ->
     failed_attempts (after_failures cfg st ip mail times)
       = Z.of_nat (length (attempts st)) + Z.of_nat (length times) + 1) /\
    Z.of_N (lockout_count (after_failures cfg st ip mail times))
      = Z.of_N (lockout_count st)
        + Z.max 0 (Z.of_nat (length times)
                   - Z.max 0 (max_attempts cfg - Z.of_nat (length (attempts st)) - 2)).
Proof.
  induction times as [|t ts IH]; intros st Hold Hnew Hfail.
  - simpl. rewrite app_nil_r. split; [reflexivity|]. split; [congruence | lia].
  - set (a := mkAttempt t false ip mail).
    assert (Hkept : attempts (counted cfg st a t t) = attempts st ++ [a]).
    { rewrite counted_attempts. apply filter_in_window_all.
      apply Forall_app. split.
      - eapply Forall_impl; [exact Hold|]. intros x Hx.
        by inversion Hx.
      - constructor; [|constructor]. simpl. apply Hnew; by left. }
    assert (Hcount : failed_attempts (counted cfg st a t t)
                     = Z.of_nat (length (attempts st)) + 2).
    { rewrite counted_failed_attempts, Hkept, count_failures_app.
      rewrite (count_failures_all _ Hfail).
      change (count_failures [a]) with 1. lia. }
    assert (Hatt1 : attempts (after_failure cfg st a t t) = attempts st ++ [a])
      by (by rewrite after_failure_attempts).
    assert (Hlc1 : Z.of_N (lockout_count (after_failure cfg st a t t))
                   = Z.of_N (lockout_count st)
                     + (if max_attempts cfg <=? Z.of_nat (length (attempts st)) + 2
                        then 1 else 0)).
    { destruct (threshold_reached cfg (counted cfg st a t t)) eqn:E.
      - destruct (after_failure_fired cfg _ _ _ _ E) as [_ ->].
        unfold threshold_reached in E. rewrite Hcount in E. rewrite E. lia.
      - destruct (after_failure_not_fired cfg _ _ _ _ E) as [_ ->].
        unfold threshold_reached in E. rewrite Hcount in E. rewrite E. lia. }
    assert (Hf1 : failed_attempts (after_failure cfg st a t t)
                  = Z.of_nat (length (attempts st)) + 2)
      by (by rewrite after_failure_failed_attempts).
    change (after_failures cfg st ip mail (t :: ts))
      with (after_failures cfg (after_failure cfg st a t t) ip mail ts).
    destruct (IH (after_failure cfg st a t t)) as (IHa & IHf & IHl).
    { rewrite Hatt1. apply Forall_app. split.
      - eapply Forall_impl; [exact Hold|]. intros x Hx. by inversion Hx.
      - constructor; [|constructor]. simpl. apply Forall_forall.
        intros t' Ht'. apply Hnew; [by left | by right]. }
    { intros u u' Hu Hu'. apply Hnew; by right. }
    { rewrite Hatt1. apply Forall_app. split; [exact Hfail|]. by repeat constructor. }
    rewrite Hatt1 in IHa, IHf, IHl. rewrite length_app in IHf, IHl. simpl in IHf, IHl.
    split; [|split].
    + rewrite IHa, <- app_assoc. reflexivity.
    + intros _. destruct ts as [|t' ts'].
      * simpl. fold a. rewrite Hf1. simpl. lia.
      * rewrite IHf by discriminate. simpl length. lia.
    + rewrite IHl, Hlc1. simpl length.
      destruct (max_attempts cfg <=? Z.of_nat (length (attempts st)) + 2) eqn:E;
        [apply Z.leb_le in E | apply Z.leb_gt in E]; lia.
Qed.

Lemma fail_times_getitem (times : list Q) :
  forall s : BruteForceProtection,
    getitem (ip_attempts (fail_times cfg s ip mail times)) ip
      = after_failures cfg (getitem (ip_attempts s) ip) ip mail times /\
    getitem (account_attempts (fail_times cfg s ip mail times)) mail
      = after_failures cfg (getitem (account_attempts s) mail) ip mail times /\
    (times <> [] ->
     is_Some (ip_attempts (fail_times cfg s ip mail times) !! ip) /\
     is_Some (account_attempts (fail_times cfg s ip mail times) !! mail)).
Proof.
  induction times as [|t ts IH]; intros s; [by repeat split|].
  change (fail_times cfg s ip mail (t :: ts))
    with (fail_times cfg (record_attempt cfg s ip mail false t t t).1 ip mail ts).
  destruct (IH (record_attempt cfg s ip mail false t t t).1) as (Hi & Ha & Hs).
  pose proof (record_failure_ip cfg s ip mail t t t) as Ei.
  pose proof (record_failure_account cfg s ip mail t t t) as Ea.
  split; [|split].
  - assert (Hg : getitem (ip_attempts (record_attempt cfg s ip mail false t t t).1) ip
                 = after_failure cfg (getitem (ip_attempts s) ip)
                     (mkAttempt t false ip mail) t t)
      by (unfold getitem at 1; by rewrite Ei).
    rewrite Hi, Hg. reflexivity.
  - assert (Hg : getitem (account_attempts (record_attempt cfg s ip mail false t t t).1)
                   mail
                 = after_failure cfg (getitem (account_attempts s) mail)
                     (mkAttempt t false ip mail) t t)
      by (unfold getitem at 1; by rewrite Ea).
    rewrite Ha, Hg. reflexivity.
  - intros _. destruct ts as [|t' ts'].
    + change (fail_times cfg (record_attempt cfg s ip mail false t t t).1 ip mail [])
        with (record_attempt cfg s ip mail false t t t).1.
      rewrite Ei, Ea. by split; eexists.
    + apply Hs. discriminate.
Qed.

End Burst.

(** X14.  A burst of [n >= 1] failed attempts on an address and an
    account that have no entry, all within one window of one another,
    leaves both keys with the [n] records as history, a counter of
    [n + 1], and [lockout_count = max 0 (n - max 0 (max_attempts - 2))]:
    the keys are first locked by failure number [max_attempts - 1] (by the
    first failure when [max_attempts <= 2]), and every later failure of
    the burst locks them again. *)
Theorem burst_on_new_keys
    (cfg : Config) (s : BruteForceProtection) (ip mail : string) (times : list Q) :
  ip_attempts s !! ip = None -> account_attempts s !! mail = None ->
  times <> [] ->
  (forall t t' : Q, t ∈ times -> t' ∈ times ->
                    (t' - inject_Z (window_duration cfg) < t)%Q) ->
  let s' := fail_times cfg s ip mail times in
  let n := Z.of_nat (length times) in
  exists st : LockoutStatus,
    ip_attempts s' !! ip = Some st /\ account_attempts s' !! mail = Some st /\
    attempts st = map (fun t => mkAttempt t false ip mail) times /\
    failed_attempts st = n + 1 /\
    Z.of_N (lockout_count st) = Z.max 0 (n - Z.max 0 (max_attempts cfg - 2)).
Proof.
  intros Hip Hacc Hne Hwin. cbv zeta.
  destruct (fail_times_getitem cfg ip mail times s) as (Hi & Ha & Hs).
  destruct (Hs Hne) as [[sti Ei] [sta Ea]].
  unfold getitem in Hi, Ha. rewrite Ei, Hip in Hi. rewrite Ea, Hacc in Ha.
  simpl in Hi, Ha. subst sti sta.
  exists (after_failures cfg LockoutStatus_default ip mail times).
  split; [exact Ei|]. split; [exact Ea|].
  destruct (after_failures_burst cfg ip mail times LockoutStatus_default)
    as (H1 & H2 & H3); [constructor | exact Hwin | constructor |].
  simpl in H1, H2, H3. split; [exact H1|]. split; [by apply H2|].
  rewrite H3. f_equal. f_equal. f_equal. lia.
Qed.

Lemma burst_on_new_keys_witness :
  let times := [1000; 1001; 1002; 1003]%Q in
  let s' := fail_times default_config (init 0) "1.2.3.4" "a@b.com" times in
  (ip_attempts (init 0) !! "1.2.3.4" = None /\
   account_attempts (init 0) !! "a@b.com" = None) /\
  exists st : LockoutStatus,
    ip_attempts s' !! "1.2.3.4" = Some st /\ account_attempts s' !! "a@b.com" = Some st /\
    attempts st = map (fun t => mkAttempt t false "1.2.3.4" "a@b.com") times /\
    failed_attempts st = 5 /\ Z.of_N (lockout_count st) = 1.
Proof.
  cbv zeta. split; [by split|].
  apply (burst_on_new_keys default_config (init 0) "1.2.3.4" "a@b.com"
           [1000; 1001; 1002; 1003]%Q eq_refl eq_refl).
  - discriminate.
  - intros t t' Ht Ht'. apply list_elem_of_In in Ht, Ht'. simpl in Ht, Ht'.
    repeat (destruct Ht as [<-|Ht];
            [repeat (destruct Ht' as [<-|Ht']; [vm_compute; reflexivity|]);
             destruct Ht'|]).
    destruct Ht.
Defined.

(** * An invariant of every run *)

Section Invariant.

Variable cfg : Config.

Lemma filter_in_window_Forall (P : LoginAttempt -> Prop) (c : Q)
    (l : list LoginAttempt) :
  Forall P l -> Forall P (List.filter (in_window c) l).
Proof.
  induction 1 as [|a l Ha _ IH]; simpl; [constructor|].
  destruct (in_window c a); [by constructor | exact IH].
Qed.

Lemma status_ok_cleared (belongs : LoginAttempt -> Prop) (st : LockoutStatus) :
  status_ok belongs st -> status_ok belongs (set_locked_until st None).
Proof.
  intros (H1 & H2 & _ & H4 & H5). repeat split; try done.
  - apply H2.
  - apply H2.
  - simpl. intros [x Hx]. discriminate.
Qed.

Lemma status_ok_kept (belongs : LoginAttempt -> Prop)
    (before after : option LockoutStatus) (st' : LockoutStatus) :
  kept_or_cleared before after -> after = Some st' ->
  (forall st, before = Some st -> status_ok belongs st) ->
  status_ok belongs st'.
Proof.
  intros Hk -> Hok. destruct Hk as (st & Hb & [->| ->]).
  - by apply Hok.
  - apply status_ok_cleared. by apply Hok.
Qed.

(** What the recorder needs of the status it starts from; the default
    status and every well-formed status have it. *)
Lemma getitem_start (belongs : LoginAttempt -> Prop)
    (m : gmap string LockoutStatus) (key : string) :
  (forall st, m !! key = Some st -> status_ok belongs st) ->
  Forall belongs (attempts (getitem m key)) /\
  (is_Some (locked_until (getitem m key)) -> lockout_count (getitem m key) <> 0%N).
Proof.
  intros H. unfold getitem. destruct (m !! key) as [st|]; simpl.
  - destruct (H st eq_refl) as (H1 & _ & H3 & _). by split.
  - split; [constructor|]. intros [x Hx]. discriminate.
Qed.

Lemma track_times (old : LockoutStatus) (a : LoginAttempt) (now : Q) :
  is_Some (first_attempt_time (track old a now)) /\
  is_Some (last_attempt_time (track old a now)).
Proof.
  split; [|by eexists]. simpl.
  destruct (first_attempt_time old) as [x|]; simpl; [|by eexists].
  destruct (negb (Qeq_bool x 0)); simpl; by eexists.
Qed.

Lemma success_ok (belongs : LoginAttempt -> Prop) (old : LockoutStatus)
    (a : LoginAttempt) (now : Q) :
  Forall belongs (attempts old) ->
  (is_Some (locked_until old) -> lockout_count old <> 0%N) ->
  belongs a ->
  status_ok belongs (set_failed_attempts (track old a now) 0).
Proof.
  intros H1 H2 Ha. destruct (track_times old a now) as [Hf Hl].
  split; [|split; [|split; [|split]]]; simpl attempts; simpl failed_attempts.
  - apply Forall_app. split; [exact H1 | by constructor].
  - lia.
  - exact H2.
  - exact Hf.
  - exact Hl.
Qed.

Lemma failure_ok (belongs : LoginAttempt -> Prop) (old : LockoutStatus)
    (a : LoginAttempt) (now t : Q) :
  Forall belongs (attempts old) ->
  (is_Some (locked_until old) -> lockout_count old <> 0%N) ->
  belongs a ->
  status_ok belongs (after_failure cfg old a now t).
Proof.
  intros H1 H2 Ha. destruct (track_times old a now) as [Hf Hl].
  assert (Hc : status_ok belongs (counted cfg old a now t)).
  { split; [|split; [|split; [|split]]].
    - rewrite counted_attempts.
      apply filter_in_window_Forall.
      apply Forall_app. split; [exact H1 | by constructor].
    - rewrite counted_failed_attempts.
      pose proof (count_failures_nonneg (attempts (counted cfg old a now t))).
      pose proof (count_failures_le_length (attempts (counted cfg old a now t))).
      lia.
    - exact H2.
    - exact Hf.
    - exact Hl. }
  unfold after_failure. destruct (threshold_reached cfg _); [|exact Hc].
  destruct Hc as (C1 & C2 & _ & C4 & C5).
  split; [exact C1|]. split; [exact C2|]. split; [|by split].
  intros _. simpl. lia.
Qed.

Lemma record_attempt_ok (s : BruteForceProtection) (ip mail : string) (ok : bool)
    (now t_ip t_acc : Q) :
  store_ok s -> store_ok (record_attempt cfg s ip mail ok now t_ip t_acc).1.
Proof.
  intros [Hi Ha]. split; intros key st E.
  - destruct (decide (key = ip)) as [->|Hne].
    + destruct (getitem_start (fun a => ip_address a = ip) (ip_attempts s) ip (Hi ip))
        as [G1 G2].
      destruct ok.
      * rewrite record_success_ip in E. injection E as <-. by apply success_ok.
      * rewrite record_failure_ip in E. injection E as <-. by apply failure_ok.
    + rewrite record_other_ip in E by exact Hne. by apply Hi.
  - destruct (decide (key = mail)) as [->|Hne].
    + destruct (getitem_start (fun a => email a = mail) (account_attempts s) mail
                  (Ha mail)) as [G1 G2].
      destruct ok.
      * rewrite record_success_account in E. injection E as <-. by apply success_ok.
      * rewrite record_failure_account in E. injection E as <-. by apply failure_ok.
    + rewrite record_other_account in E by exact Hne. by apply Ha.
Qed.

Lemma lock_check_ok (s : BruteForceProtection) (key : string) (t_sweep now : Q) :
  store_ok s ->
  store_ok (is_ip_locked cfg s key t_sweep now).1 /\
  store_ok (is_account_locked cfg s key t_sweep now).1.
Proof.
  intros [Hi Ha]. split; split; intros k st E.
  - destruct (lock_check_kept cfg s key k t_sweep now) as (H & _ & _ & _).
    eapply status_ok_kept; [exact H | exact E | apply Hi].
  - destruct (lock_check_kept cfg s key k t_sweep now) as (_ & H & _ & _).
    eapply status_ok_kept; [exact H | exact E | apply Ha].
  - destruct (lock_check_kept cfg s key k t_sweep now) as (_ & _ & H & _).
    eapply status_ok_kept; [exact H | exact E | apply Hi].
  - destruct (lock_check_kept cfg s key k t_sweep now) as (_ & _ & _ & H).
    eapply status_ok_kept; [exact H | exact E | apply Ha].
Qed.

Lemma reset_ok (s : BruteForceProtection) (key : string) :
  store_ok s -> store_ok (reset_ip s key) /\ store_ok (reset_account s key).
Proof.
  intros [Hi Ha]. split; split; intros k st E; simpl in E.
  - apply lookup_delete_Some in E as [_ E]. by apply Hi.
  - by apply Ha.
  - by apply Hi.
  - apply lookup_delete_Some in E as [_ E]. by apply Ha.
Qed.

Lemma get_status_ok (s : BruteForceProtection) (ip_address mail : option string)
    (t1 t2 t3 t4 : Q) :
  store_ok s -> store_ok (get_status cfg s ip_address mail t1 t2 t3 t4).1.
Proof.
  intros Hs. rewrite get_status_unfold. cbv zeta.
  assert (H1 : store_ok
                 match given ip_address with
                 | Some ip =>
                     match ip_attempts s !! ip with
                     | Some _ => (is_ip_locked cfg s ip t1 t2).1
                     | None => s
                     end
                 | None => s
                 end).
  { destruct (given ip_address) as [ip|]; [|exact Hs].
    destruct (ip_attempts s !! ip); [|exact Hs]. by apply lock_check_ok. }
  destruct (given mail) as [key|]; [|exact H1].
  destruct (account_attempts _ !! key); [|exact H1]. by apply lock_check_ok.
Qed.

Lemma call_ok (s : BruteForceProtection) (c : Call) :
  store_ok s -> store_ok (call cfg s c).
Proof.
  intros Hs. destruct c; simpl.
  - by apply record_attempt_ok.
  - by apply lock_check_ok.
  - by apply lock_check_ok.
  - by apply reset_ok.
  - by apply reset_ok.
  - by apply get_status_ok.
Qed.

Lemma run_ok (calls : list Call) :
  forall s : BruteForceProtection, store_ok s -> store_ok (run cfg s calls).
Proof.
  induction calls as [|c calls IH]; intros s Hs; [exact Hs|].
  simpl. apply IH. by apply call_ok.
Qed.

End Invariant.

(** X15.  Whatever sequence of calls ([record_attempt], the two lock
    checks, the two resets, [get_status]) an instance has served since its
    creation, with whatever arguments and clock readings, every stored
    status is well formed: its history holds only records of the key it is
    stored under, its counter lies between 0 and the length of the history
    plus one, a status that carries a lock time has [lockout_count >= 1],
    and both attempt times are set. *)
Theorem every_run_keeps_statuses_well_formed
    (cfg : Config) (t0 : Q) (calls : list Call) :
  store_ok (run cfg (init t0) calls).
Proof.
  apply run_ok. split; intros key st E; simpl in E;
    rewrite lookup_empty in E; discriminate.
Qed.

(** * Time order of the histories *)

Section TimeOrder.

Variable cfg : Config.

Lemma filter_in_window_sorted (c : Q) (l : list LoginAttempt) :
  StronglySorted (fun a b => (timestamp a <= timestamp b)%Q) l ->
  StronglySorted (fun a b => (timestamp a <= timestamp b)%Q)
    (List.filter (in_window c) l).
Proof.
  induction 1 as [|a l Hs IH Ha]; simpl; [constructor|].
  destruct (in_window c a); [|exact IH].
  constructor; [exact IH|]. by apply filter_in_window_Forall.
Qed.

Lemma history_ordered_weaken (b b' : Q) (st : LockoutStatus) :
  (b <= b')%Q -> history_ordered b st -> history_ordered b' st.
Proof.
  intros Hb (Hs & lt & E & Hlt & Hall). split; [exact Hs|].
  exists lt. split; [exact E|]. split; [lra | exact Hall].
Qed.

Lemma history_ordered_kept (b : Q) (before after : option LockoutStatus)
    (st' : LockoutStatus) :
  kept_or_cleared before after -> after = Some st' ->
  (forall st, before = Some st -> history_ordered b st) ->
  history_ordered b st'.
Proof.
  intros Hk -> Hok. destruct Hk as (st & Hb & [->| ->]); exact (Hok st Hb).
Qed.

(** The status a [record_attempt] at [now] starts from and the one it
    leaves. *)
Lemma getitem_ordered (b : Q) (m : gmap string LockoutStatus) (key : string) :
  (forall st, m !! key = Some st -> history_ordered b st) ->
  StronglySorted (fun a b => (timestamp a <= timestamp b)%Q) (attempts (getitem m key)) /\
  Forall (fun a => (timestamp a <= b)%Q) (attempts (getitem m key)).
Proof.
  intros H. unfold getitem. destruct (m !! key) as [st|]; simpl.
  - destruct (H st eq_refl) as (Hs & lt & _ & Hlt & Hall). split; [exact Hs|].
    eapply Forall_impl; [exact Hall|]. intros a Ha. simpl in Ha. lra.
  - split; constructor.
Qed.

Lemma track_ordered (b now : Q) (old : LockoutStatus) (ip mail : string) (ok : bool) :
  (b <= now)%Q ->
  StronglySorted (fun a b => (timestamp a <= timestamp b)%Q) (attempts old) ->
  Forall (fun a => (timestamp a <= b)%Q) (attempts old) ->
  history_ordered now (track old (mkAttempt now ok ip mail) now).
Proof.
  intros Hb Hs Hall. split; simpl.
  - apply StronglySorted_app_2; [|exact Hs | by repeat constructor].
    intros x1 x2 Hx1 Hx2. apply list_elem_of_singleton in Hx2 as ->. simpl.
    rewrite Forall_forall in Hall. specialize (Hall x1 Hx1). simpl in Hall. lra.
  - exists now. split; [reflexivity|]. split; [apply Qle_refl|].
    apply Forall_app. split.
    + eapply Forall_impl; [exact Hall|]. intros a Ha. simpl in Ha. lra.
    + constructor; [apply Qle_refl | constructor].
Qed.

Lemma success_ordered (b : Q) (st : LockoutStatus) :
  history_ordered b st -> history_ordered b (set_failed_attempts st 0).
Proof. done. Qed.

Lemma failure_ordered (b : Q) (st : LockoutStatus) (now t : Q) :
  history_ordered b st ->
  history_ordered b
    (let pruned := _prune_old_attempts cfg st t in
     let status := set_failed_attempts pruned (failed_attempts pruned + 1) in
     if threshold_reached cfg status then impose_lock cfg status now else status).
Proof.
  intros (Hs & lt & E & Hlt & Hall). cbv zeta.
  assert (H : history_ordered b
                (set_failed_attempts (_prune_old_attempts cfg st t)
                   (failed_attempts (_prune_old_attempts cfg st t) + 1))).
  { split; simpl.
    - by apply filter_in_window_sorted.
    - exists lt. split; [exact E|]. split; [exact Hlt|].
      by apply filter_in_window_Forall. }
  by destruct (threshold_reached cfg _).
Qed.

Lemma record_attempt_ordered (b : Q) (s : BruteForceProtection) (ip mail : string)
    (ok : bool) (now t_ip t_acc : Q) :
  (b <= now)%Q -> store_ordered b s ->
  store_ordered now (record_attempt cfg s ip mail ok now t_ip t_acc).1.
Proof.
  intros Hb Hs key st. split; intros E.
  - destruct (decide (key = ip)) as [->|Hne].
    + destruct (getitem_ordered b (ip_attempts s) ip (fun st => proj1 (Hs ip st)))
        as [G1 G2].
      pose proof (track_ordered b now _ ip mail ok Hb G1 G2) as Ht.
      destruct ok.
      * rewrite record_success_ip in E. injection E as <-. by apply success_ordered.
      * rewrite record_failure_ip in E. injection E as <-.
        by apply (failure_ordered now _ now t_ip).
    + rewrite record_other_ip in E by exact Hne.
      apply (history_ordered_weaken b now); [exact Hb | exact (proj1 (Hs key st) E)].
  - destruct (decide (key = mail)) as [->|Hne].
    + destruct (getitem_ordered b (account_attempts s) mail
                  (fun st => proj2 (Hs mail st))) as [G1 G2].
      pose proof (track_ordered b now _ ip mail ok Hb G1 G2) as Ht.
      destruct ok.
      * rewrite record_success_account in E. injection E as <-.
        by apply success_ordered.
      * rewrite record_failure_account in E. injection E as <-.
        by apply (failure_ordered now _ now t_acc).
    + rewrite record_other_account in E by exact Hne.
      apply (history_ordered_weaken b now); [exact Hb | exact (proj2 (Hs key st) E)].
Qed.

Lemma lock_check_ordered (b : Q) (s : BruteForceProtection) (key : string)
    (t_sweep now : Q) :
  store_ordered b s ->
  store_ordered b (is_ip_locked cfg s key t_sweep now).1 /\
  store_ordered b (is_account_locked cfg s key t_sweep now).1.
Proof.
  intros Hs. split; intros k st; split; intros E.
  - destruct (lock_check_kept cfg s key k t_sweep now) as (H & _ & _ & _).
    eapply history_ordered_kept; [exact H | exact E |].
    intros st0 E0. exact (proj1 (Hs k st0) E0).
  - destruct (lock_check_kept cfg s key k t_sweep now) as (_ & H & _ & _).
    eapply history_ordered_kept; [exact H | exact E |].
    intros st0 E0. exact (proj2 (Hs k st0) E0).
  - destruct (lock_check_kept cfg s key k t_sweep now) as (_ & _ & H & _).
    eapply history_ordered_kept; [exact H | exact E |].
    intros st0 E0. exact (proj1 (Hs k st0) E0).
  - destruct (lock_check_kept cfg s key k t_sweep now) as (_ & _ & _ & H).
    eapply history_ordered_kept; [exact H | exact E |].
    intros st0 E0. exact (proj2 (Hs k st0) E0).
Qed.

Lemma reset_ordered (b : Q) (s : BruteForceProtection) (key : string) :
  store_ordered b s ->
  store_ordered b (reset_ip s key) /\ store_ordered b (reset_account s key).
Proof.
  intros Hs. split; intros k st; split; intros E; simpl in E.
  - apply lookup_delete_Some in E as [_ E]. exact (proj1 (Hs k st) E).
  - exact (proj2 (Hs k st) E).
  - exact (proj1 (Hs k st) E).
  - apply lookup_delete_Some in E as [_ E]. exact (proj2 (Hs k st) E).
Qed.

Lemma get_status_ordered (b : Q) (s : BruteForceProtection)
    (ip_address mail : option string) (t1 t2 t3 t4 : Q) :
  store_ordered b s ->
  store_ordered b (get_status cfg s ip_address mail t1 t2 t3 t4).1.
Proof.
  intros Hs. rewrite get_status_unfold. cbv zeta.
  assert (H1 : store_ordered b
                 match given ip_address with
                 | Some ip =>
                     match ip_attempts s !! ip with
                     | Some _ => (is_ip_locked cfg s ip t1 t2).1
                     | None => s
                     end
                 | None => s
                 end).
  { destruct (given ip_address) as [ip|]; [|exact Hs].
    destruct (ip_attempts s !! ip); [|exact Hs]. by apply lock_check_ordered. }
  destruct (given mail) as [key|]; [|exact H1].
  destruct (account_attempts _ !! key); [|exact H1]. by apply lock_check_ordered.
Qed.

Lemma run_ordered (calls : list Call) :
  forall (b : Q) (s : BruteForceProtection),
    store_ordered b s -> clock_non_decreasing b calls ->
    store_ordered (last_clock b calls) (run cfg s calls).
Proof.
  induction calls as [|c calls IH]; intros b s Hs Hclock; [exact Hs|].
  destruct c; simpl in Hclock |- *.
  - destruct Hclock as [Hb Hrest]. apply IH; [|exact Hrest].
    by apply (record_attempt_ordered b).
  - apply IH; [|exact Hclock]. by apply lock_check_ordered.
  - apply IH; [|exact Hclock]. by apply lock_check_ordered.
  - apply IH; [|exact Hclock]. by apply reset_ordered.
  - apply IH; [|exact Hclock]. by apply reset_ordered.
  - apply IH; [|exact Hclock]. by apply get_status_ordered.
Qed.

End TimeOrder.

(** X16.  When the clocks read on entry by the successive
    [record_attempt] calls of an instance never run backwards, every
    stored history is in time order, no record is later than the status's
    [last_attempt_time], and no [last_attempt_time] is later than the
    clock of the last [record_attempt]; lock checks, resets, status
    reports and their sweeps, at whatever times, do not disturb this. *)
Theorem histories_are_time_ordered
    (cfg : Config) (t0 bound : Q) (calls : list Call) :
  clock_non_decreasing bound calls ->
  store_ordered (last_clock bound calls) (run cfg (init t0) calls).
Proof.
  intros H. apply run_ordered; [|exact H].
  intros key st. split; intros E; simpl in E; rewrite lookup_empty in E; discriminate.
Qed.

Lemma histories_are_time_ordered_witness :
  let calls :=
    [CallRecordAttempt "1.2.3.4" "a@b.com" false 1000 1000 1000;
     CallIsIpLocked "1.2.3.4" 5 5;
     CallRecordAttempt "1.2.3.4" "c@d.com" true 1001 1001 1001;
     CallGetStatus (Some "1.2.3.4"%string) None 1002 1002 1002 1002] in
  clock_non_decreasing 0 calls /\
  store_ordered 1001 (run default_config (init 0) calls).
Proof.
  cbv zeta.
  assert (H : clock_non_decreasing 0
                [CallRecordAttempt "1.2.3.4" "a@b.com" false 1000 1000 1000;
                 CallIsIpLocked "1.2.3.4" 5 5;
                 CallRecordAttempt "1.2.3.4" "c@d.com" true 1001 1001 1001;
                 CallGetStatus (Some "1.2.3.4"%string) None 1002 1002 1002 1002]).
  { simpl. repeat split; unfold Qle; simpl; lia. }
  split; [exact H|].
  exact (histories_are_time_ordered default_config 0 0 _ H).
Defined.
